(** * Medicine-ball throw distance: a shallow embedding of [medicineBall.py]

    The embedded code is [ThrowDistanceMeasurer.process_video] and
    [ThrowDistanceMeasurer._process] with the [MeasurementResult] and [Config]
    data classes, [Config.from_ball_color], the selection and centroid part
    of [BallDetector.detect], [PoseEstimator.get_person_x] and the
    configuration and exit code of [main].  The video decoder, the colour
    mask, the contour finder and the pose network are OpenCV / MediaPipe
    calls: what they report for a frame (contours with their area and
    moments, pose landmarks, the key code) is an input of the model, what is
    drawn or printed is not modelled.

    Python [int] is [Z], Python [float] is the kernel's binary64 [float],
    [Optional[T]] is [option T], a [str] is a [string], a list is a [list],
    the insertion-ordered [defaultdict(int)] is an association list. *)

From Stdlib Require Import String Ascii ZArith List Bool Lia Floats.
Import ListNotations.
Local Open Scope Z_scope.

(* ================================================================== *)
(** * Python numbers and exceptions *)
(* ================================================================== *)

Inductive PyExn : Set :=
| OverflowError   (* int too large to convert to float *)
| ValueError.     (* max() arg is an empty sequence *)

Inductive PyResult (A : Type) : Type :=
| Return (a : A)
| Raise (e : PyExn).
Arguments Return {A} a.
Arguments Raise {A} e.

Definition bind {A B : Type} (m : PyResult A) (k : A -> PyResult B) : PyResult B :=
  match m with
  | Return a => k a
  | Raise e => Raise e
  end.

Notation "x <- m ;; k" := (bind m (fun x => k))
  (at level 61, m at next level, right associativity).

Module PyFloat.

(** The float literals of the source, written in hexadecimal so that the
    binary64 value CPython reads from the decimal literal is explicit. *)
Definition f0_2 : float := 0x1.999999999999ap-3.   (* 0.2 *)
Definition f0_4 : float := 0x1.999999999999ap-2.   (* 0.4 *)
Definition f0_5 : float := 0.5.
Definition f1_5 : float := 1.5.
Definition f30 : float := 30.
Definition f100 : float := 100.

(** [float(n)] for a Python int: the nearest binary64, ties to even.  The
    conversion overflows exactly when rounding reaches the infinity. *)
Definition Z2SF (n : Z) : spec_float := binary_normalize prec emax n 0 false.

(** Conversion of an int that cannot overflow (a list length, a count). *)
Definition float_of_Z (n : Z) : float := SF2Prim (Z2SF n).

(** Implicit int -> float conversion of mixed arithmetic ([n * x]):
    [OverflowError] when [n] is too large for a binary64. *)
Definition int_to_float (n : Z) : PyResult float :=
  let x := float_of_Z n in
  if is_infinity x then Raise OverflowError else Return x.

(** [bool(x)] of a float: false for [0.0] and [-0.0] only. *)
Definition truthy (x : float) : bool := negb (x =? 0)%float.

(** [x >= 0] *)
Definition nonneg (x : float) : bool := (0 <=? x)%float.

(** Nearest integer of [num / den] for [den > 0], ties to the even one. *)
Definition round_half_even (num den : Z) : Z :=
  let q := num / den in
  match 2 * (num mod den) ?= den with
  | Lt => q
  | Gt => q + 1
  | Eq => if Z.even q then q else q + 1
  end.

(** Nearest integer of [m * 2^e * p], ties to even. *)
Definition scaled_round (m : positive) (e : Z) (p : positive) : Z :=
  if 0 <=? e then Zpos m * 2 ^ e * Zpos p
  else round_half_even (Zpos m * Zpos p) (2 ^ (- e)).

(** [round(x, ndigits)] for a float and [ndigits >= 0]: the exact binary
    value of [x] is rounded half-even to [ndigits] decimals and the decimal
    obtained is converted back to the nearest binary64; infinities, NaN and
    zeros are returned unchanged. *)
Definition py_round (x : float) (ndigits : nat) : float :=
  match Prim2SF x with
  | S754_finite s m e =>
      let p := Pos.of_nat (10 ^ ndigits) in
      match scaled_round m e p with
      | Zpos k => SF2Prim (SFdiv prec emax (S754_finite s k 0) (S754_finite false p 0))
      | _ => SF2Prim (S754_zero s)
      end
  | _ => x
  end.

End PyFloat.
Import PyFloat.

(** Python's [max(iterable, key=...)]: the first element whose key is not
    exceeded later on; [ValueError] on an empty iterable. *)
Fixpoint py_max_from {A : Type} (key : A -> Z) (best : A) (rest : list A) : A :=
  match rest with
  | [] => best
  | a :: rest' =>
      if key best <? key a then py_max_from key a rest'
      else py_max_from key best rest'
  end.

Definition py_max {A : Type} (key : A -> Z) (l : list A) : PyResult A :=
  match l with
  | [] => Raise ValueError
  | a :: rest => Return (py_max_from key a rest)
  end.

(** [len(l)] *)
Definition len {A : Type} (l : list A) : Z := Z.of_nat (length l).

(* ================================================================== *)
(** * Data classes *)
(* ================================================================== *)

(** [Config] (lines 52-82): the two manual overrides are the only fields
    [_process] reads; the remaining fields parameterise the detectors and the
    drawing. *)
Record Config : Type := {
  manual_scale_cm_per_px : option float;
  manual_origin_x : option Z
}.

(** [MeasurementResult] (lines 89-98). *)
Record MeasurementResult : Type := {
  status : string;
  distance_cm : option float;
  distance_m : option float;
  calibration_scale : option float;
  trajectory_points : Z;
  processing_time_ms : float;
  error_message : option string
}.

(** [MeasurementResult(status=s)]: every other field at its default. *)
Definition default_result (s : string) : MeasurementResult :=
  {| status := s;
     distance_cm := None;
     distance_m := None;
     calibration_scale := None;
     trajectory_points := 0;
     processing_time_ms := 0%float;
     error_message := None |}.

Definition set_processing_time (r : MeasurementResult) (t : float) : MeasurementResult :=
  {| status := status r;
     distance_cm := distance_cm r;
     distance_m := distance_m r;
     calibration_scale := calibration_scale r;
     trajectory_points := trajectory_points r;
     processing_time_ms := t;
     error_message := error_message r |}.

(** An entry of [all_balls]: [(x, y, frame)]. *)
Definition Ball : Type := (Z * Z * Z)%type.
Definition ball_x (b : Ball) : Z := fst (fst b).
Definition ball_y (b : Ball) : Z := snd (fst b).
Definition ball_frame (b : Ball) : Z := snd b.

(** What the external calls yield on one frame of the video:
    [get_person_x(frame)], [detect(frame)] and the key code [cv2.waitKey(1)]
    reports while the preview window is shown.  Each is taken as a function
    of the frame; the loop decides which of them it consults. *)
Record Frame : Type := {
  pose_result : option (Z * option float);
  ball_pos : option (Z * Z);
  wait_key : Z
}.

(** The video file as [process_video] sees it. *)
Record Video : Type := {
  video_path : string;
  path_exists : bool;
  is_opened : bool;
  frames : list Frame
}.

(* ================================================================== *)
(** * [_process]: the frame loop *)
(* ================================================================== *)

(** The local variables the loop carries from frame to frame (lines 350-358). *)
Record LoopState : Type := {
  scale : option float;
  all_balls : list Ball;
  person_x_hint : option Z;
  frame_count : Z
}.

Definition is_none {A : Type} (o : option A) : bool :=
  match o with None => true | Some _ => false end.

(** [all_balls[i]]; every index the code uses is in range. *)
Definition ball_at (balls : list Ball) (i : nat) : Ball := nth i balls (0, 0, 0).

(** The [for i in range(...)] scan with its [break]: the first index [i]
    among [idxs] with [abs(x[i+2] - x[i]) > threshold]. *)
Fixpoint scan_onset (threshold : Z) (balls : list Ball) (idxs : list nat) : option nat :=
  match idxs with
  | [] => None
  | i :: rest =>
      let x1 := ball_x (ball_at balls i) in
      let x2 := ball_x (ball_at balls (i + 2)) in
      if threshold <? Z.abs (x2 - x1) then Some i
      else scan_onset threshold balls rest
  end.

(** [range(len(all_balls) - 3)]; empty when the length is below 4. *)
Definition scan_range (balls : list Ball) : list nat := seq 0 (length balls - 3).

(** [all_balls[max(0, i-1)][0]] *)
Definition x_before (balls : list Ball) (i : nat) : Z :=
  ball_x (ball_at balls (Z.to_nat (Z.max 0 (Z.of_nat i - 1)))).

(** The on-screen origin marker of the preview (lines 395-405; drawn, never
    returned). *)
Definition display_origin (balls : list Ball) : option Z :=
  if 5 <=? len balls then
    match scan_onset 15 balls (scan_range balls) with
    | Some i => Some (x_before balls i)
    | None => Some (ball_x (ball_at balls 0))
    end
  else None.

(** [candidate_scale] and its acceptance test, for a frame's pixel height. *)
Definition candidate_scale (athlete_height_cm ph : float) : float :=
  (athlete_height_cm / ph)%float.

Definition plausible_scale (c : float) : bool :=
  (f0_2 <=? c)%float && (c <=? f1_5)%float.

(** The pose block of the loop body (lines 370-381). *)
Definition update_pose (athlete_height_cm : float) (f : Frame)
    (sc : option float) (hint : option Z) : option float * option Z :=
  if is_none sc || is_none hint then
    match pose_result f with
    | Some (px, ph) =>
        let hint' := match hint with None => Some px | Some _ => hint end in
        let sc' :=
          match sc, ph with
          | None, Some h =>
              if truthy h && (f30 <? h)%float then
                let c := candidate_scale athlete_height_cm h in
                if plausible_scale c then Some c else None
              else None
          | _, _ => sc
          end in
        (sc', hint')
    | None => (sc, hint)
    end
  else (sc, hint).

(** [cv2.waitKey(1) & 0xFF == ord('q')], evaluated only with the preview
    (lines 413-416). *)
Definition quit_pressed (show_preview : bool) (f : Frame) : bool :=
  show_preview && (Z.land (wait_key f) 255 =? 113).

Inductive StepResult : Type :=
| Continue (st : LoopState)
| Cancel.          (* return MeasurementResult(status="CANCELLED") *)

(** One iteration of [while True] on a frame that was read (lines 361-416). *)
Definition frame_step (athlete_height_cm : float) (show_preview : bool)
    (st : LoopState) (f : Frame) : StepResult :=
  let count := frame_count st + 1 in
  let '(sc, hint) := update_pose athlete_height_cm f (scale st) (person_x_hint st) in
  let balls :=
    match ball_pos f with
    | Some (bx, by_) => all_balls st ++ [(bx, by_, count)]
    | None => all_balls st
    end in
  if quit_pressed show_preview f then Cancel
  else Continue {| scale := sc; all_balls := balls;
                   person_x_hint := hint; frame_count := count |}.

Inductive LoopResult : Type :=
| Finished (st : LoopState)    (* cap.read() reported the end of the stream *)
| Cancelled.

Fixpoint run_frames (athlete_height_cm : float) (show_preview : bool)
    (fs : list Frame) (st : LoopState) : LoopResult :=
  match fs with
  | [] => Finished st
  | f :: rest =>
      match frame_step athlete_height_cm show_preview st f with
      | Continue st' => run_frames athlete_height_cm show_preview rest st'
      | Cancel => Cancelled
      end
  end.

Definition initial_state (config : Config) : LoopState :=
  {| scale := manual_scale_cm_per_px config;
     all_balls := [];
     person_x_hint := None;
     frame_count := 0 |}.

(* ================================================================== *)
(** * [_process]: the analysis after the loop *)
(* ================================================================== *)

(** [abs(x - person_x_hint) < 200] *)
Definition near_person (hint : Z) (b : Ball) : bool :=
  Z.abs (ball_x b - hint) <? 200.

(** [bucket = (x // 50) * 50] *)
Definition bucket (x : Z) : Z := (x / 50) * 50.

(** [position_counts[k] += 1] on the insertion-ordered [defaultdict(int)]:
    a new key is appended with count 1. *)
Fixpoint dict_incr (k : Z) (d : list (Z * Z)) : list (Z * Z) :=
  match d with
  | [] => [(k, 1)]
  | (k', c) :: d' =>
      if k' =? k then (k', c + 1) :: d' else (k', c) :: dict_incr k d'
  end.

(** [position_counts[k]] / [position_counts.get(k)] for the keys in use. *)
Fixpoint dict_item (d : list (Z * Z)) (k : Z) : Z :=
  match d with
  | [] => 0
  | (k', c) :: d' => if k' =? k then c else dict_item d' k
  end.

Definition position_counts (balls : list Ball) : list (Z * Z) :=
  fold_left (fun d b => dict_incr (bucket (ball_x b)) d) balls [].

(** [max(position_counts, key=position_counts.get) if position_counts else 0] *)
Definition static_bucket_of (counts : list (Z * Z)) : Z :=
  match map fst counts with
  | [] => 0
  | k :: ks => py_max_from (dict_item counts) k ks
  end.

(** [static_count > len(all_balls) * 0.4], for [total = len(all_balls)] *)
Definition dominant (static_count total : Z) : bool :=
  (float_of_Z total * f0_4 <? float_of_Z static_count)%float.

(** [abs(x - static_bucket - 25) > 75] *)
Definition off_cluster (static_bucket : Z) (b : Ball) : bool :=
  75 <? Z.abs (ball_x b - static_bucket - 25).

(** The "filter static objects" block (lines 440-455): the new [all_balls]
    and [origin_x]. *)
Definition drop_static (balls : list Ball) (origin_x : Z) : list Ball * Z :=
  let counts := position_counts balls in
  let static_bucket := static_bucket_of counts in
  let static_count := dict_item counts static_bucket in
  if dominant static_count (len balls) then
    let filtered_balls := filter (off_cluster static_bucket) balls in
    if 3 <=? len filtered_balls
    then (filtered_balls, ball_x (ball_at filtered_balls 0))
    else (balls, origin_x)
  else (balls, origin_x).

(** The "look for movement start" loop (lines 457-463). *)
Definition movement_start (balls : list Ball) (origin_x : Z) : Z :=
  match scan_onset 20 balls (scan_range balls) with
  | Some i => x_before balls i
  | None => origin_x
  end.

(** "Find the throw origin using multiple strategies" (lines 428-468):
    [origin_x] and the (possibly replaced) [all_balls]. *)
Definition find_origin (hint : option Z) (balls : list Ball) : Z * list Ball :=
  let origin_x := ball_x (ball_at balls 0) in
  match hint with
  | Some p =>
      match filter (near_person p) balls with
      | b :: _ => (ball_x b, balls)
      | [] =>
          let '(balls', origin_x') := drop_static balls origin_x in
          (movement_start balls' origin_x', balls')
      end
  | None => (origin_x, balls)
  end.

(** [if self.config.manual_origin_x: origin_x = self.config.manual_origin_x]
    (lines 470-473): [None] and [0] are both falsy. *)
Definition override_origin (config : Config) (origin_x : Z) : Z :=
  match manual_origin_x config with
  | Some m => if m =? 0 then origin_x else m
  | None => origin_x
  end.

(** [if scale is None: scale = 0.5] (lines 476-480) *)
Definition scale_or_default (sc : option float) : float :=
  match sc with
  | Some s => s
  | None => f0_5
  end.

(** [max(range(len(all_balls)), key=lambda i: all_balls[i][1])] (line 483) *)
Definition landing_index (balls : list Ball) : PyResult nat :=
  py_max (fun i => ball_y (ball_at balls i)) (seq 0 (length balls)).

Definition not_enough : string :=
  "Not enough ball detections. Adjust ball color settings.".

(** Everything below "Analyze results" (lines 419-513). *)
Definition analyse (config : Config) (st : LoopState) : PyResult MeasurementResult :=
  if len (all_balls st) <? 3 then
    Return {| status := "INVALID";
              distance_cm := None;
              distance_m := None;
              calibration_scale := None;
              trajectory_points := len (all_balls st);
              processing_time_ms := 0%float;
              error_message := Some not_enough |}
  else
    let '(origin_x, balls) := find_origin (person_x_hint st) (all_balls st) in
    let origin_x := override_origin config origin_x in
    let sc := scale_or_default (scale st) in
    landing_idx <- landing_index balls ;;
    let landing_x := ball_x (ball_at balls landing_idx) in
    let pixel_dist := Z.abs (landing_x - origin_x) in
    pixel_dist_f <- int_to_float pixel_dist ;;
    let dist_cm := (pixel_dist_f * sc)%float in
    Return {| status := "VALID";
              distance_cm := Some (py_round dist_cm 2);
              distance_m := Some (py_round (dist_cm / f100) 3);
              calibration_scale := Some sc;
              trajectory_points := len balls;
              processing_time_ms := 0%float;
              error_message := None |}.

(** [_process] (lines 341-513): the frame loop, then the analysis. *)
Definition _process (config : Config) (fs : list Frame)
    (athlete_height_cm : float) (show_preview : bool) : PyResult MeasurementResult :=
  match run_frames athlete_height_cm show_preview fs (initial_state config) with
  | Cancelled => Return (default_result "CANCELLED")
  | Finished st => analyse config st
  end.

(** [process_video] (lines 321-339); [elapsed_ms] is
    [(time.time() - start_time) * 1000]. *)
Definition process_video (config : Config) (video : Video)
    (athlete_height_cm : float) (show_preview : bool) (elapsed_ms : float)
    : PyResult MeasurementResult :=
  if negb (path_exists video) then
    Return {| status := "ERROR";
              distance_cm := None;
              distance_m := None;
              calibration_scale := None;
              trajectory_points := 0;
              processing_time_ms := 0%float;
              error_message := Some ("Video not found: " ++ video_path video)%string |}
  else if negb (is_opened video) then
    Return {| status := "ERROR";
              distance_cm := None;
              distance_m := None;
              calibration_scale := None;
              trajectory_points := 0;
              processing_time_ms := 0%float;
              error_message := Some "Cannot open video"%string |}
  else
    result <- _process config (frames video) athlete_height_cm show_preview ;;
    Return (set_processing_time result elapsed_ms).

(* ================================================================== *)
(** * More Python builtins *)
(* ================================================================== *)

(** [int(x)] for a float: truncation towards zero; [ValueError] on NaN,
    [OverflowError] on an infinity. *)
Definition float_to_int (x : float) : PyResult Z :=
  match Prim2SF x with
  | S754_nan => Raise ValueError
  | S754_infinity _ => Raise OverflowError
  | S754_zero _ => Return 0
  | S754_finite s m e =>
      let magnitude := if 0 <=? e then Zpos m * 2 ^ e else Zpos m / 2 ^ (- e) in
      Return (if s then - magnitude else magnitude)
  end.

(** [x > n] for a float [x] and an int [n]: Python compares the two exactly,
    without converting [n]. *)
Definition float_gt_int (x : float) (n : Z) : bool :=
  match Prim2SF x with
  | S754_nan => false
  | S754_infinity s => negb s
  | S754_zero _ => n <? 0
  | S754_finite s m e =>
      let v := if s then Zneg m else Zpos m in
      if 0 <=? e then n <? v * 2 ^ e else n * 2 ^ (- e) <? v
  end.

(** [c.lower()] for a character below U+0100: the ASCII capitals and the
    Latin-1 capitals (U+00C0..U+00DE without the multiplication sign). *)
Definition lower_char (c : ascii) : ascii :=
  let n := N_of_ascii c in
  if ((65 <=? n) && (n <=? 90))%N || ((192 <=? n) && (n <=? 222) && negb (n =? 215))%N
  then ascii_of_N (n + 32)
  else c.

(** [s.lower()] for a string of characters below U+0100. *)
Fixpoint lower (s : string) : string :=
  match s with
  | EmptyString => EmptyString
  | String c rest => String (lower_char c) (lower rest)
  end.

(* ================================================================== *)
(** * [Config]: the remaining fields, the colour presets *)
(* ================================================================== *)

Definition Triple : Type := (Z * Z * Z)%type.

(** The fields of [Config] (lines 56-75) that [_process] does not read.
    Together with the two manual overrides they make up a [Config] object. *)
Record DetectorConfig : Type := {
  hsv_lower : Triple;
  hsv_upper : Triple;
  min_ball_area : Z;
  morph_kernel_size : Z;
  pose_model_complexity : Z;
  pose_min_detection_confidence : float;
  pose_min_tracking_confidence : float;
  landmark_visibility_threshold : float;
  trajectory_color : Triple;
  pose_color : Triple;
  ball_marker_color : Triple
}.

Record FullConfig : Type := {
  detector : DetectorConfig;
  overrides : Config
}.

Definition f0_3 : float := 0x1.3333333333333p-2.    (* 0.3 *)
Definition f0_35 : float := 0x1.6666666666666p-2.   (* 0.35 *)
Definition f2 : float := 2.

(** [Config(hsv_lower=lower, hsv_upper=upper)]: the other fields at their
    defaults. *)
Definition config_with_hsv (lower upper : Triple) : FullConfig :=
  {| detector :=
       {| hsv_lower := lower;
          hsv_upper := upper;
          min_ball_area := 15;
          morph_kernel_size := 2;
          pose_model_complexity := 1;
          pose_min_detection_confidence := f0_3;
          pose_min_tracking_confidence := f0_3;
          landmark_visibility_threshold := f0_3;
          trajectory_color := (0, 255, 255);
          pose_color := (0, 255, 0);
          ball_marker_color := (0, 0, 255) |};
     overrides := {| manual_scale_cm_per_px := None; manual_origin_x := None |} |}.

(** [Config()] *)
Definition default_config : FullConfig := config_with_hsv (0, 50, 50) (30, 255, 255).

(** [BALL_COLOR_PRESETS] (lines 42-49), in insertion order. *)
Definition BALL_COLOR_PRESETS : list (string * (Triple * Triple)) :=
  [ ("orange", ((0, 100, 100), (25, 255, 255)));
    ("red",    ((0, 100, 100), (15, 255, 255)));
    ("blue",   ((100, 100, 100), (130, 255, 255)));
    ("green",  ((35, 100, 100), (85, 255, 255)));
    ("yellow", ((20, 100, 100), (35, 255, 255)));
    ("brown",  ((5, 50, 50), (25, 150, 200))) ]%string.

(** [d.get(key)] on a dict with string keys. *)
Fixpoint str_dict_get {V : Type} (d : list (string * V)) (key : string) : option V :=
  match d with
  | [] => None
  | (k, v) :: rest => if String.eqb k key then Some v else str_dict_get rest key
  end.

(** [Config.from_ball_color] (lines 77-82). *)
Definition from_ball_color (color : string) : PyResult FullConfig :=
  match str_dict_get BALL_COLOR_PRESETS (lower color) with
  | None => Raise ValueError
  | Some (lo, up) => Return (config_with_hsv lo up)
  end.

(* ================================================================== *)
(** * [BallDetector.detect]: the choice among the contours *)
(* ================================================================== *)

(** What OpenCV reports for one contour of the mask: [cv2.contourArea] and
    the moments [m00], [m10], [m01] of [cv2.moments]. *)
Record Contour : Type := {
  area : float;
  m00 : float;
  m10 : float;
  m01 : float
}.

(** The [for contour in contours] loop (lines 140-147), from the state
    [(best_contour, best_area)]. *)
Fixpoint best_contour_from (min_area : Z) (contours : list Contour)
    (best_contour : option Contour) (best_area : float) : option Contour :=
  match contours with
  | [] => best_contour
  | contour :: rest =>
      if float_gt_int (area contour) min_area && (best_area <? area contour)%float
      then best_contour_from min_area rest (Some contour) (area contour)
      else best_contour_from min_area rest best_contour best_area
  end.

(** [best_contour = None; best_area = 0] and the loop. *)
Definition best_contour (min_area : Z) (contours : list Contour) : option Contour :=
  best_contour_from min_area contours None 0%float.

(** [detect] (lines 123-158) on the contours [cv2.findContours] found. *)
Definition detect (c : DetectorConfig) (contours : list Contour)
    : PyResult (option (Z * Z)) :=
  match best_contour (min_ball_area c) contours with
  | None => Return None
  | Some b =>
      if (m00 b =? 0)%float then Return None
      else
        cx <- float_to_int (m10 b / m00 b)%float ;;
        cy <- float_to_int (m01 b / m00 b)%float ;;
        Return (Some (cx, cy))
  end.

(* ================================================================== *)
(** * [PoseEstimator.get_person_x] *)
(* ================================================================== *)

(** A MediaPipe landmark: normalised coordinates and visibility. *)
Record Landmark : Type := {
  lm_x : float;
  lm_y : float;
  visibility : float
}.

(** The five landmarks [get_person_x] reads. *)
Record Landmarks : Type := {
  left_hip : Landmark;
  right_hip : Landmark;
  left_ankle : Landmark;
  right_ankle : Landmark;
  nose : Landmark
}.

(** [lm.visibility >= vis] *)
Definition visible (vis : float) (lm : Landmark) : bool := (vis <=? visibility lm)%float.

Definition hips_visible (vis : float) (l : Landmarks) : bool :=
  visible vis (left_hip l) && visible vis (right_hip l).

Definition ankles_visible (vis : float) (l : Landmarks) : bool :=
  visible vis (left_ankle l) && visible vis (right_ankle l).

(** [int(((a.x + b.x) / 2) * width)] *)
Definition mid_x (a b : Landmark) (width : Z) : PyResult Z :=
  w <- int_to_float width ;;
  float_to_int ((lm_x a + lm_x b) / f2 * w)%float.

(** [((a.y + b.y) / 2) * height] *)
Definition mid_y (a b : Landmark) (height : float) : float :=
  ((lm_y a + lm_y b) / f2 * height)%float.

(** "Get X position from hips or ankles" (lines 198-206). *)
Definition person_x_of (vis : float) (width : Z) (l : Landmarks) : PyResult (option Z) :=
  if hips_visible vis l then
    x <- mid_x (left_hip l) (right_hip l) width ;; Return (Some x)
  else if ankles_visible vis l then
    x <- mid_x (left_ankle l) (right_ankle l) width ;; Return (Some x)
  else Return None.

(** "Try to get full height (nose to ankle)" (lines 208-220). *)
Definition pixel_height_of (vis : float) (height : Z) (l : Landmarks)
    : PyResult (option float) :=
  if visible vis (nose l) then
    h <- int_to_float height ;;
    let nose_y := (lm_y (nose l) * h)%float in
    if ankles_visible vis l then
      let ankle_y := mid_y (left_ankle l) (right_ankle l) h in
      Return (Some (abs (ankle_y - nose_y)))
    else if hips_visible vis l then
      let hip_y := mid_y (left_hip l) (right_hip l) h in
      let torso_height := abs (hip_y - nose_y) in
      Return (Some (torso_height / f0_35)%float)
    else Return None
  else Return None.

(** [get_person_x] (lines 179-222) on a frame of the given shape for which
    MediaPipe reported [pose_landmarks]. *)
Definition get_person_x (c : DetectorConfig) (height width : Z)
    (pose_landmarks : option Landmarks) : PyResult (option (Z * option float)) :=
  match pose_landmarks with
  | None => Return None
  | Some l =>
      let vis := landmark_visibility_threshold c in
      person_x <- person_x_of vis width l ;;
      match person_x with
      | None => Return None
      | Some px =>
          pixel_height <- pixel_height_of vis height l ;;
          Return (Some (px, pixel_height))
      end
  end.

(* ================================================================== *)
(** * The frame loop on the detectors' raw data *)
(* ================================================================== *)

(** A frame as the loop receives it: its shape, what MediaPipe and
    [cv2.findContours] report for it, and the key code of [cv2.waitKey(1)]. *)
Record RawFrame : Type := {
  shape_height : Z;
  shape_width : Z;
  pose_landmarks : option Landmarks;
  contours : list Contour;
  key_code : Z
}.

(** The loop body (lines 361-416) with the two detector calls in place:
    [get_person_x] is called only while the scale or the hint is missing,
    [detect] on every frame. *)
Definition frame_step_raw (c : FullConfig) (athlete_height_cm : float)
    (show_preview : bool) (st : LoopState) (rf : RawFrame) : PyResult StepResult :=
  pose <- (if is_none (scale st) || is_none (person_x_hint st)
           then get_person_x (detector c) (shape_height rf) (shape_width rf)
                  (pose_landmarks rf)
           else Return None) ;;
  ball <- detect (detector c) (contours rf) ;;
  Return (frame_step athlete_height_cm show_preview st
            {| pose_result := pose; ball_pos := ball; wait_key := key_code rf |}).

Fixpoint run_raw_frames (c : FullConfig) (athlete_height_cm : float)
    (show_preview : bool) (rfs : list RawFrame) (st : LoopState) : PyResult LoopResult :=
  match rfs with
  | [] => Return (Finished st)
  | rf :: rest =>
      step <- frame_step_raw c athlete_height_cm show_preview st rf ;;
      match step with
      | Continue st' => run_raw_frames c athlete_height_cm show_preview rest st'
      | Cancel => Return Cancelled
      end
  end.

(** [_process] on raw frames. *)
Definition _process_raw (c : FullConfig) (rfs : list RawFrame)
    (athlete_height_cm : float) (show_preview : bool) : PyResult MeasurementResult :=
  outcome <- run_raw_frames c athlete_height_cm show_preview rfs
               (initial_state (overrides c)) ;;
  match outcome with
  | Cancelled => Return (default_result "CANCELLED")
  | Finished st => analyse (overrides c) st
  end.

(** What the detectors yield on a raw frame, when both return. *)
Definition observed_as (c : FullConfig) (rf : RawFrame) (f : Frame) : Prop :=
  get_person_x (detector c) (shape_height rf) (shape_width rf) (pose_landmarks rf)
    = Return (pose_result f)
  /\ detect (detector c) (contours rf) = Return (ball_pos f)
  /\ key_code rf = wait_key f.

(* ================================================================== *)
(** * [main] *)
(* ================================================================== *)

(** The namespace [parser.parse_args()] returns (lines 521-531). *)
Record Args : Type := {
  arg_video : string;
  arg_height_cm : float;
  arg_ball_color : string;
  arg_origin_x : option Z;
  arg_scale : option float;
  arg_no_preview : bool;
  arg_output : option string
}.

(** The values [--ball-color] accepts. *)
Definition ball_color_choices : list string :=
  [ "orange"; "red"; "blue"; "green"; "yellow"; "brown" ]%string.

(** "Create config" (lines 533-538). *)
Definition main_config (args : Args) : PyResult FullConfig :=
  config <- from_ball_color (arg_ball_color args) ;;
  let origin :=
    match arg_origin_x args with
    | Some m => if m =? 0 then manual_origin_x (overrides config) else Some m
    | None => manual_origin_x (overrides config)
    end in
  let sc :=
    match arg_scale args with
    | Some s => if truthy s then Some s else manual_scale_cm_per_px (overrides config)
    | None => manual_scale_cm_per_px (overrides config)
    end in
  Return {| detector := detector config;
            overrides := {| manual_scale_cm_per_px := sc; manual_origin_x := origin |} |}.

(** [main] (lines 520-578) up to its printing and file output: the
    measurement and the exit code, for the file at [args.video] ([file_exists],
    [file_opens], its frames). *)
Definition main (args : Args) (file_exists file_opens : bool) (fs : list Frame)
    (elapsed_ms : float) : PyResult (MeasurementResult * Z) :=
  config <- main_config args ;;
  result <- process_video (overrides config)
              {| video_path := arg_video args;
                 path_exists := file_exists;
                 is_opened := file_opens;
                 frames := fs |}
              (arg_height_cm args) (negb (arg_no_preview args)) elapsed_ms ;;
  Return (result, if String.eqb (status result) "VALID" then 0 else 1).

(* ================================================================== *)
(** * Notions the properties are stated with *)
(* ================================================================== *)

(** ** What a run collects *)

(** The detections of a video in frame order, each tagged with the 1-based
    number of its frame, counting on from [n]. *)
Fixpoint observations_from (n : Z) (fs : list Frame) : list Ball :=
  match fs with
  | [] => []
  | f :: rest =>
      match ball_pos f with
      | Some (bx, by_) => (bx, by_, n + 1) :: observations_from (n + 1) rest
      | None => observations_from (n + 1) rest
      end
  end.

Definition observations (fs : list Frame) : list Ball := observations_from 0 fs.

(** The x of the first person signal of the video. *)
Fixpoint first_person_x (fs : list Frame) : option Z :=
  match fs with
  | [] => None
  | f :: rest =>
      match pose_result f with
      | Some (px, _) => Some px
      | None => first_person_x rest
      end
  end.

(** The scale one frame's person signal yields: [athlete_height_cm / ph]
    when [ph > 30] and the ratio lies in [[0.2, 1.5]]. *)
Definition derived_scale (athlete_height_cm : float) (f : Frame) : option float :=
  match pose_result f with
  | Some (_, Some ph) =>
      let c := candidate_scale athlete_height_cm ph in
      if (f30 <? ph)%float && plausible_scale c then Some c else None
  | _ => None
  end.

(** The first scale a frame of the video yields. *)
Fixpoint first_derived_scale (athlete_height_cm : float) (fs : list Frame) : option float :=
  match fs with
  | [] => None
  | f :: rest =>
      match derived_scale athlete_height_cm f with
      | Some c => Some c
      | None => first_derived_scale athlete_height_cm rest
      end
  end.

(** No frame of the video has the quit key pressed under the preview. *)
Definition cancel_free (show_preview : bool) (fs : list Frame) : bool :=
  forallb (fun f => negb (quit_pressed show_preview f)) fs.

(** The loop variables after the frames [fs] have been folded into [st]:
    the first scale and the first hint win, detections are appended. *)
Definition state_after (athlete_height_cm : float) (st : LoopState)
    (fs : list Frame) : LoopState :=
  {| scale := match scale st with
              | Some s => Some s
              | None => first_derived_scale athlete_height_cm fs
              end;
     all_balls := all_balls st ++ observations_from (frame_count st) fs;
     person_x_hint := match person_x_hint st with
                      | Some p => Some p
                      | None => first_person_x fs
                      end;
     frame_count := frame_count st + len fs |}.

(** The scale a run ends with: manual, else first derived, else 0.5. *)
Definition run_scale (config : Config) (athlete_height_cm : float)
    (fs : list Frame) : float :=
  match manual_scale_cm_per_px config with
  | Some s => s
  | None => scale_or_default (first_derived_scale athlete_height_cm fs)
  end.

(** ** What a run resolves and returns *)

(** What [_process] resolves: the origin after the override, and the
    trajectory the landing is searched in. *)
Definition resolved_origin (config : Config) (hint : option Z)
    (balls : list Ball) : Z * list Ball :=
  (override_origin config (fst (find_origin hint balls)),
   snd (find_origin hint balls)).

(** The [VALID] result for an unrounded distance, a scale and a point count. *)
Definition valid_result (dist_cm sc : float) (points : Z) : MeasurementResult :=
  {| status := "VALID";
     distance_cm := Some (py_round dist_cm 2);
     distance_m := Some (py_round (dist_cm / f100) 3);
     calibration_scale := Some sc;
     trajectory_points := points;
     processing_time_ms := 0%float;
     error_message := None |}.

(** [abs(x[i+2] - x[i]) > threshold] at index [i]. *)
Definition moved (threshold : Z) (balls : list Ball) (i : nat) : bool :=
  threshold <? Z.abs (ball_x (ball_at balls (i + 2)) - ball_x (ball_at balls i)).

(** ** Bins of width 50 *)

(** The x of [b] lies in the bin [[k, k + 50)]. *)
Definition in_bin (k : Z) (b : Ball) : bool :=
  (k <=? ball_x b) && (ball_x b <? k + 50).

(** The number of points of a trajectory in the bin [[k, k + 50)]. *)
Definition bin_count (k : Z) (balls : list Ball) : Z := len (filter (in_bin k) balls).

(** The points whose bucket is [k]. *)
Definition same_bucket (k : Z) (b : Ball) : bool := bucket (ball_x b) =? k.

(** "More than 40% of [total]", in exact arithmetic. *)
Definition more_than_40_percent (count total : Z) : bool := 2 * total <? 5 * count.

(** The ints [0 .. n] with their floats. *)
Definition float_table (n : nat) : list (Z * float) :=
  map (fun k => (Z.of_nat k, float_of_Z (Z.of_nat k))) (seq 0 (S n)).

(** The float test of the code agrees with the exact one for every count and
    every total up to [n]. *)
Definition dominant_agrees_upto (n : nat) : bool :=
  let table := float_table n in
  forallb (fun total =>
    let threshold := (snd total * f0_4)%float in
    forallb (fun count =>
      Bool.eqb (threshold <? snd count)%float
               (more_than_40_percent (fst count) (fst total)))
      table)
    table.

(** ** The specification's wording, where it differs from the code *)

(** The movement scan as the specification words it: every consecutive
    triple [(i, i+2)] of the trajectory is examined, so [i] runs up to
    [len - 3] inclusive. *)
Definition spec_scan_range (balls : list Ball) : list nat := seq 0 (length balls - 2).

Definition spec_movement_start (balls : list Ball) (origin_x : Z) : Z :=
  match scan_onset 20 balls (spec_scan_range balls) with
  | Some i => x_before balls i
  | None => origin_x
  end.

(** Origin resolution as the specification words it: a manual origin is
    terminal, the heuristics run only without one. *)
Definition spec_resolve_origin (manual : option Z) (hint : option Z)
    (balls : list Ball) : Z * list Ball :=
  match manual with
  | Some m => (m, balls)
  | None => find_origin hint balls
  end.

(** ** Classes of specification floats *)

Definition sf_signed (s : bool) (x : spec_float) : Prop :=
  match x with
  | S754_zero s' | S754_infinity s' | S754_finite s' _ _ => s' = s
  | S754_nan => False
  end.

Definition sf_nonneg (x : spec_float) : bool :=
  match x with
  | S754_zero _ => true
  | S754_infinity s | S754_finite s _ _ => negb s
  | S754_nan => false
  end.

Definition sf_finite (x : spec_float) : bool :=
  match x with
  | S754_zero _ | S754_finite _ _ _ => true
  | _ => false
  end.

(** ** Notions for the properties of the detectors *)

(** A contour passes both area tests of the loop in its initial state. *)
Definition qualifies (min_area : Z) (c : Contour) : bool :=
  float_gt_int (area c) min_area && (0 <? area c)%float.

(** [b] is the first contour of the largest area among those that pass the
    tests: it passes them, every earlier contour above the minimum is
    strictly smaller, no later one is larger. *)
Definition first_largest (min_area : Z) (cs : list Contour) (b : Contour) : Prop :=
  exists pre post,
    cs = pre ++ b :: post
    /\ qualifies min_area b = true
    /\ (forall c, In c pre -> float_gt_int (area c) min_area = true ->
                  (area c <? area b)%float = true)
    /\ (forall c, In c post -> float_gt_int (area c) min_area = true ->
                  (area b <? area c)%float = false).

(** ** Notions for the properties of a run *)


(** A detection with its frame number erased. *)
Definition unnumbered (b : Ball) : Ball := (ball_x b, ball_y b, 0).


(* ================================================================== *)
(** * Example runs *)
(* ================================================================== *)

Definition frame_of (p : option (Z * option float)) (b : option (Z * Z)) (k : Z) : Frame :=
  {| pose_result := p; ball_pos := b; wait_key := k |}.

Definition video_of (fs : list Frame) : Video :=
  {| video_path := "throw.mp4"; path_exists := true; is_opened := true; frames := fs |}.

Definition config_auto : Config :=
  {| manual_scale_cm_per_px := None; manual_origin_x := None |}.

Definition config_origin (m : Z) : Config :=
  {| manual_scale_cm_per_px := None; manual_origin_x := Some m |}.

Definition config_scale (s : float) : Config :=
  {| manual_scale_cm_per_px := Some s; manual_origin_x := None |}.

(** Scenario A of the specification. *)
Definition balls_scenario : list Ball :=
  [ (100, 50, 1); (120, 55, 2); (300, 400, 3) ].

Definition frames_scenario : list Frame :=
  map (fun b => frame_of None (Some (ball_x b, ball_y b)) (-1)) balls_scenario.

(** Two detections only (scenario D of the specification). *)
Definition frames_two_points : list Frame :=
  [ frame_of None (Some (100, 50)) (-1);
    frame_of None None (-1);
    frame_of None (Some (120, 55)) (-1) ].

(** Three detections and a derived scale, then [q] on the fourth frame. *)
Definition frames_quit : list Frame :=
  [ frame_of (Some (105, Some 350%float)) (Some (100, 50)) (-1);
    frame_of None (Some (120, 55)) (-1);
    frame_of None (Some (300, 400)) (-1);
    frame_of None None 113;
    frame_of None (Some (310, 405)) (-1) ].

(** Person signals only: too small, out of range, valid (0.5), valid (1.0). *)
Definition frames_pose : list Frame :=
  [ frame_of (Some (400, Some 20%float)) None (-1);
    frame_of (Some (410, Some 1000%float)) None (-1);
    frame_of (Some (420, Some 350%float)) None (-1);
    frame_of (Some (430, Some 175%float)) None (-1) ].

(** A trajectory whose only movement is between its last three points; the
    thrower is far away at x = 1000. *)
Definition balls_late_move : list Ball :=
  [ (0, 0, 1); (10, 0, 2); (0, 0, 3); (10, 0, 4); (100, 0, 5) ].

(** A thrower at x = 300: the first two points are 250 and exactly 200
    pixels away, the third is 150 pixels away. *)
Definition balls_boundary_pre : list Ball := [ (50, 10, 1); (100, 20, 2) ].
Definition balls_boundary_post : list Ball := [ (400, 200, 4) ].

(** Three detections of a ball lying at x = 10..14 (the lowest point of the
    whole trajectory among them), then three of the thrown ball; the thrower
    is at x = 2000. *)
Definition balls_static : list Ball :=
  [ (10, 500, 1); (12, 10, 2); (14, 10, 3); (300, 20, 4); (400, 30, 5); (500, 40, 6) ].

Definition frames_static : list Frame :=
  map (fun b => frame_of (Some (2000, None)) (Some (ball_x b, ball_y b)) (-1)) balls_static.

(** The same detections in a video where no person is ever detected. *)
Definition frames_static_unseen : list Frame :=
  map (fun b => frame_of None (Some (ball_x b, ball_y b)) (-1)) balls_static.



(** ** Example detector data *)

(** A contour of area [a] whose centroid is [(x, y)]. *)
Definition contour_at (a x y : float) : Contour :=
  {| area := a; m00 := a; m10 := (a * x)%float; m01 := (a * y)%float |}.

(** Noise below the minimum area, the ball, a smaller blob, and a blob of the
    ball's area that comes later. *)
Definition contours_ball : list Contour :=
  [ contour_at 10 5 5; contour_at 100 100 50; contour_at 40 700 20;
    contour_at 100 900 10 ].

(** Blobs of area 15 and below only. *)
Definition contours_noise : list Contour :=
  [ contour_at 10 5 5; contour_at 15 100 50; contour_at 0 7 7 ].

(** A contour whose moments give no finite centroid. *)
Definition contours_unbounded : list Contour :=
  [ {| area := 100; m00 := 100; m10 := infinity; m01 := 5000 |} ].

Definition landmark_at (x y v : float) : Landmark :=
  {| lm_x := x; lm_y := y; visibility := v |}.

(** A thrower standing in the middle of the picture: hips, ankles and nose
    all visible. *)
Definition landmarks_standing : Landmarks :=
  {| left_hip := landmark_at 0.5 0.5 0.875;
     right_hip := landmark_at 0.5 0.5 0.875;
     left_ankle := landmark_at 0.625 0.75 0.75;
     right_ankle := landmark_at 0.625 0.75 0.75;
     nose := landmark_at 0.5 0.25 1 |}.

(** The same thrower with the feet out of sight. *)
Definition landmarks_torso : Landmarks :=
  {| left_hip := landmark_at 0.5 0.5 0.875;
     right_hip := landmark_at 0.5 0.5 0.875;
     left_ankle := landmark_at 0.625 0.75 0.125;
     right_ankle := landmark_at 0.625 0.75 0.125;
     nose := landmark_at 0.5 0.25 1 |}.

Definition raw_frame_of (l : option Landmarks) (cs : list Contour) : RawFrame :=
  {| shape_height := 720; shape_width := 1280;
     pose_landmarks := l; contours := cs; key_code := -1 |}.

(** Scenario A as raw frames, with the thrower seen on the first two. *)
Definition raw_scenario : list RawFrame :=
  [ raw_frame_of (Some landmarks_standing) [contour_at 100 100 50];
    raw_frame_of (Some landmarks_standing) [contour_at 90 120 55];
    raw_frame_of None [contour_at 80 300 400] ].

(** What the detectors answer on [raw_scenario]. *)
Definition frames_raw_scenario : list Frame :=
  [ frame_of (Some (640, Some 360%float)) (Some (100, 50)) (-1);
    frame_of (Some (640, Some 360%float)) (Some (120, 55)) (-1);
    frame_of None (Some (300, 400)) (-1) ].

Definition args_of (color : string) (origin : option Z) (sc : option float) : Args :=
  {| arg_video := "throw.mp4"; arg_height_cm := 175; arg_ball_color := color;
     arg_origin_x := origin; arg_scale := sc; arg_no_preview := true;
     arg_output := None |}.

(* ================================================================== *)
(** * Facts about binary64 arithmetic *)
(* ================================================================== *)

Module PyFloatFacts.

Lemma nonneg_spec (x : float) : nonneg x = sf_nonneg (Prim2SF x).
Proof.
  unfold nonneg. rewrite leb_spec.
  change (Prim2SF 0) with (S754_zero false).
  destruct (Prim2SF x) as [s|s| |s m e]; try destruct s; reflexivity.
Qed.

Lemma sf_signed_nonneg x : sf_signed false x -> sf_nonneg x = true.
Proof. destruct x; simpl; intros; subst; auto; contradiction. Qed.

Lemma shr_1_nonneg mrs : 0 <= shr_m mrs -> 0 <= shr_m (shr_1 mrs).
Proof.
  destruct mrs as [m r s]; simpl.
  destruct m as [|[p|p|]|[p|p|]]; simpl; lia.
Qed.

Lemma iter_shr_1_nonneg p : forall mrs,
  0 <= shr_m mrs -> 0 <= shr_m (iter_pos shr_1 p mrs).
Proof.
  induction p as [p IH|p IH|]; intros mrs H; simpl.
  - apply IH, IH, shr_1_nonneg, H.
  - apply IH, IH, H.
  - apply shr_1_nonneg, H.
Qed.

Lemma shr_fexp_nonneg m e l :
  0 <= m -> 0 <= shr_m (fst (shr_fexp prec emax m e l)).
Proof.
  intros H. unfold shr_fexp, shr.
  assert (H0 : 0 <= shr_m (shr_record_of_loc m l))
    by (destruct l as [|[| |]]; exact H).
  destruct (fexp prec emax (Zdigits2 m + e) - e) as [|p|p]; simpl; auto.
  apply iter_shr_1_nonneg, H0.
Qed.

Lemma round_nearest_even_nonneg m l : 0 <= m -> 0 <= round_nearest_even m l.
Proof.
  intros H. destruct l as [|[| |]]; simpl; try lia.
  destruct (Z.even m); lia.
Qed.

Lemma binary_round_aux_signed s m e l :
  0 <= m -> sf_signed s (binary_round_aux prec emax s m e l).
Proof.
  intros H. unfold binary_round_aux.
  pose proof (shr_fexp_nonneg m e l H) as H1.
  destruct (shr_fexp prec emax m e l) as [mrs' e']. simpl in H1.
  pose proof (shr_fexp_nonneg _ e' loc_Exact
                (round_nearest_even_nonneg _ (loc_of_shr_record mrs') H1)) as H2.
  destruct (shr_fexp prec emax _ e' loc_Exact) as [mrs'' e'']. simpl in H2.
  destruct (shr_m mrs'') as [|p|p]; simpl; try reflexivity; try lia.
  match goal with |- context [if ?c then _ else _] => destruct c end; reflexivity.
Qed.

Lemma binary_round_signed s m e : sf_signed s (binary_round prec emax s m e).
Proof.
  unfold binary_round.
  destruct (shl_align m e _) as [mz ez].
  apply binary_round_aux_signed. lia.
Qed.

Lemma binary_normalize_nonneg n e :
  0 <= n -> sf_signed false (binary_normalize prec emax n e false).
Proof.
  intros H. destruct n as [|p|p]; simpl; try reflexivity; try lia.
  apply binary_round_signed.
Qed.

Lemma SFldexp_signed s x e : sf_signed s x -> sf_signed s (SFldexp prec emax x e).
Proof.
  destruct x as [s'|s'| |s' m e']; simpl; auto.
  intros ->. apply binary_round_signed.
Qed.

Lemma SF2Prim_nonneg x : sf_signed false x -> nonneg (SF2Prim x) = true.
Proof.
  destruct x as [s|s| |s m e]; simpl; intros H; subst; try reflexivity; try contradiction.
  rewrite nonneg_spec, Z_ldexp_spec, of_uint63_spec.
  apply sf_signed_nonneg, SFldexp_signed, binary_normalize_nonneg.
  apply Uint63.to_Z_bounded.
Qed.

Lemma float_of_Z_nonneg n : 0 <= n -> nonneg (float_of_Z n) = true.
Proof. intros H. apply SF2Prim_nonneg, binary_normalize_nonneg, H. Qed.


Lemma is_infinity_spec x :
  is_infinity x = match Prim2SF x with S754_infinity _ => true | _ => false end.
Proof.
  unfold is_infinity. rewrite eqb_spec, abs_spec.
  change (Prim2SF infinity) with (S754_infinity false).
  destruct (Prim2SF x) as [s|s| |s m e]; reflexivity.
Qed.

Lemma is_nan_spec x :
  is_nan x = match Prim2SF x with S754_nan => true | _ => false end.
Proof.
  unfold is_nan. rewrite eqb_spec.
  destruct (Prim2SF x) as [s|s| |s m e]; simpl; try reflexivity.
  - destruct s; reflexivity.
  - unfold SFeqb, SFcompare.
    destruct s; rewrite Z.compare_refl, Pos.compare_cont_refl; reflexivity.
Qed.

Lemma is_finite_spec x : is_finite x = sf_finite (Prim2SF x).
Proof.
  unfold is_finite. rewrite is_nan_spec, is_infinity_spec.
  destruct (Prim2SF x); reflexivity.
Qed.

(** [n * x] is non-negative (and not NaN) when [n] is a converted
    non-negative int and [x] a finite non-negative float. *)
Lemma mul_nonneg a x :
  nonneg a = true -> is_infinity a = false ->
  nonneg x = true -> is_finite x = true ->
  nonneg (a * x) = true.
Proof.
  rewrite !nonneg_spec, is_infinity_spec, is_finite_spec, mul_spec.
  unfold SF64mul.
  destruct (Prim2SF a) as [sa|sa| |sa ma ea], (Prim2SF x) as [sx|sx| |sx mx ex];
    simpl; try congruence; intros Ha _ Hx _.
  apply negb_true_iff in Ha, Hx. subst.
  apply sf_signed_nonneg, binary_round_aux_signed. lia.
Qed.

Lemma SFdiv_signed s k p :
  sf_signed s (SFdiv prec emax (S754_finite s k 0) (S754_finite false p 0)).
Proof.
  unfold SFdiv, SFdiv_core_binary.
  match goal with |- context [Z.div_eucl ?a ?b] =>
    pose proof (Z.div_pos a b) as Hq; unfold Z.div in Hq;
    assert (Ha : 0 <= a); [|destruct (Z.div_eucl a b) as [q r]]
  end.
  - match goal with |- 0 <= match ?c with _ => _ end => destruct c end;
      try lia. apply Z.shiftl_nonneg. lia.
  - rewrite xorb_false_r. apply binary_round_aux_signed.
    apply Hq; [exact Ha | lia].
Qed.

Lemma py_round_nonneg x ndigits :
  nonneg x = true -> nonneg (py_round x ndigits) = true.
Proof.
  intros H. unfold py_round.
  pose proof H as H'. rewrite nonneg_spec in H'.
  destruct (Prim2SF x) as [s|s| |s m e] eqn:E; try exact H.
  simpl in H'. apply negb_true_iff in H'. subst s.
  destruct (scaled_round m e _); try reflexivity.
  apply SF2Prim_nonneg, SFdiv_signed.
Qed.

(** An accepted candidate scale is a finite positive number. *)
Lemma plausible_scale_bounds c :
  plausible_scale c = true -> nonneg c = true /\ is_finite c = true.
Proof.
  unfold plausible_scale. rewrite andb_true_iff, !leb_spec.
  rewrite nonneg_spec, is_finite_spec.
  change (Prim2SF f0_2) with (S754_finite false 7205759403792794 (-55)).
  change (Prim2SF f1_5) with (S754_finite false 6755399441055744 (-52)).
  destruct (Prim2SF c) as [s|s| |s m e]; simpl; intros [H1 H2];
    try discriminate; destruct s; try discriminate; auto.
Qed.

Lemma default_scale_bounds : nonneg f0_5 = true /\ is_finite f0_5 = true.
Proof. split; reflexivity. Qed.

(** [ph > 30] implies [bool(ph)]. *)
Lemma gt30_truthy ph : (f30 <? ph)%float = true -> truthy ph = true.
Proof.
  unfold truthy. rewrite ltb_spec, eqb_spec.
  change (Prim2SF f30) with (S754_finite false 8444249301319680 (-48)).
  change (Prim2SF 0) with (S754_zero false).
  destruct (Prim2SF ph) as [s|s| |s m e]; simpl; try discriminate;
    destruct s; try discriminate; reflexivity.
Qed.

Lemma int_to_float_nonneg n d :
  0 <= n -> int_to_float n = Return d ->
  nonneg d = true /\ is_infinity d = false.
Proof.
  unfold int_to_float. intros Hn.
  destruct (is_infinity (float_of_Z n)) eqn:E; intros H; inversion H; subst.
  split; [apply float_of_Z_nonneg, Hn | exact E].
Qed.

(** ** Small ints convert exactly *)







End PyFloatFacts.
Import PyFloatFacts.

(* ================================================================== *)
(** * The frame loop *)
(* ================================================================== *)

Section FrameLoop.

Variable athlete_height_cm : float.
Variable show_preview : bool.

Lemma gt30_guard ph :
  truthy ph && (f30 <? ph)%float = (f30 <? ph)%float.
Proof.
  destruct (f30 <? ph)%float eqn:E.
  - rewrite (gt30_truthy _ E). reflexivity.
  - apply andb_false_r.
Qed.

(** The pose block keeps a scale and a hint once they are set, and otherwise
    takes them from the frame's person signal. *)
Lemma update_pose_spec f sc hint :
  update_pose athlete_height_cm f sc hint =
  (match sc with
   | Some s => Some s
   | None => derived_scale athlete_height_cm f
   end,
   match hint with
   | Some p => Some p
   | None => match pose_result f with Some (px, _) => Some px | None => None end
   end).
Proof.
  unfold update_pose, derived_scale.
  destruct sc as [s|], hint as [p|]; simpl; try reflexivity;
    destruct (pose_result f) as [[px [ph|]]|]; simpl; try reflexivity;
    rewrite gt30_guard;
    destruct (f30 <? ph)%float; simpl; try reflexivity;
    destruct (plausible_scale _); reflexivity.
Qed.

Lemma run_frames_finished fs : forall st,
  cancel_free show_preview fs = true ->
  run_frames athlete_height_cm show_preview fs st = Finished (state_after athlete_height_cm st fs).
Proof.
  induction fs as [|f fs IH]; intros st Hc.
  - destruct st as [sc balls hint n]. unfold state_after, len; simpl.
    rewrite app_nil_r, Z.add_0_r.
    destruct sc, hint; reflexivity.
  - simpl in Hc. apply andb_true_iff in Hc as [Hq Hc].
    apply negb_true_iff in Hq.
    simpl. unfold frame_step. rewrite update_pose_spec, Hq.
    rewrite (IH _ Hc). f_equal.
    destruct st as [sc balls hint n]. unfold state_after, len; simpl.
    f_equal.
    + destruct sc; [reflexivity|].
      destruct (derived_scale athlete_height_cm f); reflexivity.
    + destruct (ball_pos f) as [[bx by_]|]; [rewrite <- app_assoc|]; reflexivity.
    + destruct hint; [reflexivity|].
      destruct (pose_result f) as [[px ph]|]; reflexivity.
    + lia.
Qed.

Lemma run_frames_cancelled fs : forall st,
  cancel_free show_preview fs = false ->
  run_frames athlete_height_cm show_preview fs st = Cancelled.
Proof.
  induction fs as [|f fs IH]; intros st Hc; simpl in *.
  - discriminate.
  - unfold frame_step.
    destruct (update_pose _ _ _ _) as [sc hint].
    destruct (quit_pressed show_preview f); [reflexivity|].
    apply IH. exact Hc.
Qed.

(** A run is cancelled exactly when some frame has the quit key pressed. *)
Lemma run_frames_cases fs st :
  run_frames athlete_height_cm show_preview fs st =
  if cancel_free show_preview fs then Finished (state_after athlete_height_cm st fs) else Cancelled.
Proof.
  destruct (cancel_free show_preview fs) eqn:E.
  - apply run_frames_finished, E.
  - apply run_frames_cancelled, E.
Qed.

End FrameLoop.

(* ================================================================== *)
(** * Runs that end without a measurement *)
(* ================================================================== *)

Lemma cancel_free_false sp fs f :
  In f fs -> quit_pressed sp f = true -> cancel_free sp fs = false.
Proof.
  intros Hin Hq. unfold cancel_free.
  destruct (forallb _ fs) eqn:E; [|reflexivity].
  rewrite forallb_forall in E. specialize (E f Hin).
  rewrite Hq in E. discriminate.
Qed.

Lemma _process_cases config fs h sp :
  _process config fs h sp =
  if cancel_free sp fs
  then analyse config (state_after h (initial_state config) fs)
  else Return (default_result "CANCELLED").
Proof.
  unfold _process. rewrite run_frames_cases.
  destruct (cancel_free sp fs); reflexivity.
Qed.

Lemma initial_all_balls h config fs :
  all_balls (state_after h (initial_state config) fs) = observations fs.
Proof. reflexivity. Qed.

(** Claim C1.  When the video opens and the run is not cancelled, fewer than
    three collected observations make [process_video] return an [INVALID]
    result whose [trajectory_points] is the number of observations collected
    and whose distance fields are absent; the result is never [VALID]. *)
Theorem too_few_observations_invalid config video h sp elapsed :
  path_exists video = true ->
  is_opened video = true ->
  cancel_free sp (frames video) = true ->
  len (observations (frames video)) < 3 ->
  process_video config video h sp elapsed =
    Return {| status := "INVALID";
              distance_cm := None;
              distance_m := None;
              calibration_scale := None;
              trajectory_points := len (observations (frames video));
              processing_time_ms := elapsed;
              error_message := Some not_enough |}
  /\ (forall r, process_video config video h sp elapsed = Return r ->
                status r <> "VALID"%string).
Proof.
  intros He Ho Hc Hlt.
  assert (E : process_video config video h sp elapsed =
    Return {| status := "INVALID";
              distance_cm := None;
              distance_m := None;
              calibration_scale := None;
              trajectory_points := len (observations (frames video));
              processing_time_ms := elapsed;
              error_message := Some not_enough |}).
  { unfold process_video. rewrite He, Ho. simpl.
    rewrite _process_cases, Hc. unfold analyse.
    rewrite initial_all_balls.
    apply Z.ltb_lt in Hlt. rewrite Hlt. reflexivity. }
  split; [exact E|].
  intros r Hr. rewrite E in Hr. inversion Hr; subst. simpl. discriminate.
Qed.

Lemma too_few_observations_invalid_witness :
  (path_exists (video_of frames_two_points) = true /\
   is_opened (video_of frames_two_points) = true /\
   cancel_free true frames_two_points = true /\
   len (observations frames_two_points) < 3) /\
  process_video config_auto (video_of frames_two_points) 175 true 12 =
    Return {| status := "INVALID";
              distance_cm := None;
              distance_m := None;
              calibration_scale := None;
              trajectory_points := 2;
              processing_time_ms := 12;
              error_message := Some not_enough |}.
Proof.
  split.
  - repeat split.
  - apply (too_few_observations_invalid config_auto (video_of frames_two_points)
             175 true 12); reflexivity.
Defined.

(** Claim C10.  A run aborted by the per-frame quit check returns the bare
    [CANCELLED] result: no points, no distances, no scale, no message,
    whatever the frames before the abort contained. *)
Theorem cancelled_result_is_bare config video h sp elapsed f :
  path_exists video = true ->
  is_opened video = true ->
  In f (frames video) ->
  quit_pressed sp f = true ->
  process_video config video h sp elapsed =
    Return {| status := "CANCELLED";
              distance_cm := None;
              distance_m := None;
              calibration_scale := None;
              trajectory_points := 0;
              processing_time_ms := elapsed;
              error_message := None |}.
Proof.
  intros He Ho Hin Hq.
  unfold process_video. rewrite He, Ho. simpl.
  rewrite _process_cases, (cancel_free_false sp _ f Hin Hq). reflexivity.
Qed.

Lemma cancelled_result_is_bare_witness :
  (In (frame_of None None 113) frames_quit /\
   quit_pressed true (frame_of None None 113) = true /\
   len (observations (firstn 3 frames_quit)) = 3 /\
   first_derived_scale 175 (firstn 3 frames_quit) = Some 0.5%float) /\
  process_video config_auto (video_of frames_quit) 175 true 12 =
    Return {| status := "CANCELLED";
              distance_cm := None;
              distance_m := None;
              calibration_scale := None;
              trajectory_points := 0;
              processing_time_ms := 12;
              error_message := None |}.
Proof.
  split.
  - repeat split. simpl. auto.
  - apply (cancelled_result_is_bare config_auto (video_of frames_quit) 175 true 12
             (frame_of None None 113)); try reflexivity.
    simpl. auto.
Defined.

(* ================================================================== *)
(** * Calibration scale *)
(* ================================================================== *)

Lemma derived_scale_some h f c :
  derived_scale h f = Some c <->
  exists px ph,
    pose_result f = Some (px, Some ph) /\
    (f30 <? ph)%float = true /\
    c = (h / ph)%float /\
    (f0_2 <=? c)%float = true /\ (c <=? f1_5)%float = true.
Proof.
  unfold derived_scale, plausible_scale, candidate_scale. split.
  - destruct (pose_result f) as [[px [ph|]]|]; try discriminate.
    destruct (f30 <? ph)%float eqn:E1; try discriminate. simpl.
    destruct (f0_2 <=? h / ph)%float eqn:E2; try discriminate. simpl.
    destruct (h / ph <=? f1_5)%float eqn:E3; try discriminate.
    intros H. inversion H; subst. exists px, ph. auto.
  - intros (px & ph & -> & -> & -> & -> & ->). reflexivity.
Qed.

Lemma first_derived_scale_some h fs c :
  first_derived_scale h fs = Some c ->
  exists pre f post,
    fs = pre ++ f :: post /\
    Forall (fun g => derived_scale h g = None) pre /\
    derived_scale h f = Some c.
Proof.
  induction fs as [|g fs IH]; simpl; [discriminate|].
  destruct (derived_scale h g) as [c'|] eqn:E.
  - intros H. inversion H; subst. exists [], g, fs. auto.
  - intros H. destruct (IH H) as (pre & f & post & -> & Hpre & Hf).
    exists (g :: pre), f, post. auto.
Qed.

Lemma state_after_keeps_scale h st fs s :
  scale st = Some s -> scale (state_after h st fs) = Some s.
Proof. intros H. unfold state_after; simpl. rewrite H. reflexivity. Qed.

(** Claim C3.  The calibration scale of a run is the manual one when there
    is one, and otherwise the one of the first frame whose person signal has
    [ph > 30] and a ratio [athlete_height_cm / ph] inside [[0.2, 1.5]]; a
    frame whose candidate fails the test leaves the scale unset, so that later
    frames are tried; a scale that is set survives every later frame. *)
Theorem scale_first_valid_wins config h sp fs st :
  run_frames h sp fs (initial_state config) = Finished st ->
  scale st = match manual_scale_cm_per_px config with
             | Some s => Some s
             | None => first_derived_scale h fs
             end
  /\ (forall s,
        manual_scale_cm_per_px config = None ->
        scale st = Some s ->
        exists pre f post px ph,
          fs = pre ++ f :: post /\
          Forall (fun g => derived_scale h g = None) pre /\
          pose_result f = Some (px, Some ph) /\
          (f30 <? ph)%float = true /\
          s = (h / ph)%float /\
          (f0_2 <=? s)%float = true /\ (s <=? f1_5)%float = true)
  /\ (forall st0 g st1 px ph,
        scale st0 = None ->
        pose_result g = Some (px, Some ph) ->
        (f30 <? ph)%float = false \/ plausible_scale (h / ph)%float = false ->
        frame_step h sp st0 g = Continue st1 ->
        scale st1 = None)
  /\ (forall fs' st' s,
        scale st = Some s ->
        run_frames h sp fs' st = Finished st' ->
        scale st' = Some s).
Proof.
  intros Hrun.
  rewrite run_frames_cases in Hrun.
  destruct (cancel_free sp fs); [|discriminate].
  inversion Hrun as [Hst]. clear Hrun.
  assert (Hsc : scale (state_after h (initial_state config) fs)
                = match manual_scale_cm_per_px config with
                  | Some s => Some s
                  | None => first_derived_scale h fs
                  end) by reflexivity.
  split; [exact Hsc|]. split; [|split].
  - intros s Hm Hs. rewrite Hsc, Hm in Hs.
    destruct (first_derived_scale_some _ _ _ Hs) as (pre & f & post & E & Hpre & Hf).
    apply derived_scale_some in Hf as (px & ph & Hp & H30 & Hc & Hlo & Hhi).
    exists pre, f, post, px, ph. auto 10.
  - intros st0 g st1 px ph H0 Hp Hrej Hstep.
    unfold frame_step in Hstep. rewrite update_pose_spec, H0 in Hstep.
    destruct (quit_pressed sp g); [discriminate|].
    inversion Hstep; subst; simpl.
    unfold derived_scale, candidate_scale. rewrite Hp.
    destruct Hrej as [-> | ->]; [reflexivity | rewrite andb_false_r; reflexivity].
  - intros fs' st' s Hs Hrun'.
    rewrite run_frames_cases in Hrun'.
    destruct (cancel_free sp fs'); [|discriminate].
    inversion Hrun' as [Hst']. apply state_after_keeps_scale, Hs.
Qed.

Lemma scale_first_valid_wins_witness :
  run_frames 175 false frames_pose (initial_state config_auto) =
    Finished (state_after 175 (initial_state config_auto) frames_pose) /\
  scale (state_after 175 (initial_state config_auto) frames_pose) = Some 0.5%float.
Proof.
  split.
  - reflexivity.
  - pose proof (scale_first_valid_wins config_auto 175 false frames_pose
                  (state_after 175 (initial_state config_auto) frames_pose)
                  eq_refl) as [H _].
    rewrite H. reflexivity.
Defined.

(* ================================================================== *)
(** * [max] with a key *)
(* ================================================================== *)

Section PyMax.

Context {A : Type} (key : A -> Z).

(** [max] returns the first element of maximal key. *)
Lemma py_max_from_split rest : forall best,
  exists pre post,
    best :: rest = pre ++ py_max_from key best rest :: post /\
    (forall x, In x pre -> key x < key (py_max_from key best rest)) /\
    (forall x, In x post -> key x <= key (py_max_from key best rest)).
Proof.
  induction rest as [|b rest IH]; intros best; simpl.
  - exists [], []. split; [reflexivity|]. split; intros x [].
  - destruct (key best <? key b) eqn:E.
    + apply Z.ltb_lt in E.
      destruct (IH b) as (pre & post & Heq & Hpre & Hpost).
      exists (best :: pre), post. rewrite Heq at 1.
      split; [reflexivity|]. split; [|exact Hpost].
      intros x [<-|Hx]; [|apply Hpre, Hx].
      assert (Hb : key b <= key (py_max_from key b rest)).
      { assert (Hin : In b (pre ++ py_max_from key b rest :: post))
          by (rewrite <- Heq; left; reflexivity).
        apply in_app_or in Hin as [Hin|[Hin|Hin]].
        - apply Z.lt_le_incl, Hpre, Hin.
        - rewrite Hin. lia.
        - apply Hpost, Hin. }
      lia.
    + apply Z.ltb_ge in E.
      destruct (IH best) as (pre & post & Heq & Hpre & Hpost).
      destruct pre as [|a pre]; simpl in Heq; injection Heq as Hbest Hrest.
      * exists [], (b :: post).
        split; [simpl; rewrite <- Hbest; do 2 f_equal; exact Hrest|].
        split; [intros x []|].
        intros x [Hx|Hx]; [rewrite <- Hx, <- Hbest; exact E|].
        apply Hpost, Hx.
      * exists (best :: b :: pre), post.
        split; [simpl; do 2 f_equal; exact Hrest|]. split; [|exact Hpost].
        assert (Ha : key best < key (py_max_from key best rest))
          by (apply Hpre; left; symmetry; exact Hbest).
        intros x [Hx|[Hx|Hx]]; [rewrite <- Hx; exact Ha|rewrite <- Hx; lia|].
        apply Hpre. right. exact Hx.
Qed.

Lemma py_max_from_In best rest : In (py_max_from key best rest) (best :: rest).
Proof.
  destruct (py_max_from_split rest best) as (pre & post & Heq & _).
  rewrite Heq. apply in_elt.
Qed.

Lemma py_max_from_max best rest x :
  In x (best :: rest) -> key x <= key (py_max_from key best rest).
Proof.
  destruct (py_max_from_split rest best) as (pre & post & Heq & Hpre & Hpost).
  rewrite Heq. intros Hin.
  apply in_app_or in Hin as [Hin|[Hin|Hin]].
  - apply Z.lt_le_incl, Hpre, Hin.
  - rewrite Hin. lia.
  - apply Hpost, Hin.
Qed.

End PyMax.

Lemma seq_split s n pre i post :
  seq s n = pre ++ i :: post -> i = (s + length pre)%nat /\ pre = seq s (length pre).
Proof.
  revert s n. induction pre as [|a pre IH]; intros s n H.
  - destruct n; simpl in H; inversion H. simpl. split; [lia|reflexivity].
  - destruct n; simpl in H; inversion H as [[Ha Hrest]].
    destruct (IH _ _ Hrest) as [Hi Hpre]. simpl.
    split; [lia|]. f_equal. exact Hpre.
Qed.

(* ================================================================== *)
(** * Landing point *)
(* ================================================================== *)

(** The landing index is the first index of maximal y. *)
Lemma landing_index_first_max balls :
  balls <> [] ->
  exists i,
    landing_index balls = Return i /\
    (i < length balls)%nat /\
    In (ball_at balls i) balls /\
    (forall j, (j < length balls)%nat ->
               ball_y (ball_at balls j) <= ball_y (ball_at balls i)) /\
    (forall j, (j < i)%nat ->
               ball_y (ball_at balls j) < ball_y (ball_at balls i)).
Proof.
  intros Hne. unfold landing_index.
  destruct (seq 0 (length balls)) as [|a rest] eqn:Es.
  - destruct balls; [contradiction|discriminate].
  - simpl. set (key := fun i => ball_y (ball_at balls i)).
    exists (py_max_from key a rest).
    assert (Hlt : (py_max_from key a rest < length balls)%nat).
    { pose proof (py_max_from_In key a rest) as Hin.
      rewrite <- Es in Hin. apply in_seq in Hin. lia. }
    split; [reflexivity|]. split; [exact Hlt|]. split; [|split].
    + apply nth_In, Hlt.
    + intros j Hj. apply (py_max_from_max key a rest j).
      rewrite <- Es. apply in_seq. lia.
    + intros j Hj.
      destruct (py_max_from_split key rest a) as (pre & post & Heq & Hpre & _).
      rewrite <- Es in Heq.
      destruct (seq_split _ _ _ _ _ Heq) as [Hi Hp].
      apply (Hpre j). rewrite Hp. apply in_seq. lia.
Qed.

(** Claim C5.  On a non-empty trajectory the landing index is defined, its
    point has the largest y of the whole trajectory, and every earlier point
    has a strictly smaller y (the first of several maxima is taken); these
    two properties single the index out, so the landing point is determined
    by the trajectory. *)
Theorem landing_is_first_max_y balls :
  balls <> [] ->
  exists i,
    landing_index balls = Return i /\
    (i < length balls)%nat /\
    In (ball_at balls i) balls /\
    (forall j, (j < length balls)%nat ->
               ball_y (ball_at balls j) <= ball_y (ball_at balls i)) /\
    (forall j, (j < i)%nat ->
               ball_y (ball_at balls j) < ball_y (ball_at balls i)) /\
    (forall i', (i' < length balls)%nat ->
       (forall j, (j < length balls)%nat ->
                  ball_y (ball_at balls j) <= ball_y (ball_at balls i')) ->
       (forall j, (j < i')%nat ->
                  ball_y (ball_at balls j) < ball_y (ball_at balls i')) ->
       i' = i).
Proof.
  intros Hne.
  destruct (landing_index_first_max balls Hne) as (i & Hi & Hlt & Hin & Hmax & Hfirst).
  exists i. repeat (split; [assumption|]).
  intros i' Hlt' Hmax' Hfirst'.
  destruct (Nat.lt_trichotomy i' i) as [H|[H|H]]; [|exact H|].
  - specialize (Hfirst i' H). specialize (Hmax' i Hlt). lia.
  - specialize (Hfirst' i H). specialize (Hmax i' Hlt'). lia.
Qed.

Lemma landing_is_first_max_y_witness :
  balls_scenario <> [] /\
  exists i,
    landing_index balls_scenario = Return i /\
    (i < length balls_scenario)%nat /\
    In (ball_at balls_scenario i) balls_scenario.
Proof.
  assert (H : balls_scenario <> []) by discriminate.
  split; [exact H|].
  destruct (landing_is_first_max_y balls_scenario H) as (i & Hi & Hlt & Hin & _).
  exists i. auto.
Defined.

(** Ties go to the first maximum: points 0 and 2 both have y = 7. *)
Example landing_tie :
  landing_index [ (5, 7, 1); (6, 3, 2); (7, 7, 3) ] = Return 0%nat.
Proof. reflexivity. Qed.

(* ================================================================== *)
(** * Origin of the throw *)
(* ================================================================== *)

Lemma filter_first {A : Type} (f : A -> bool) pre b post :
  Forall (fun c => f c = false) pre ->
  f b = true ->
  filter f (pre ++ b :: post) = b :: filter f post.
Proof.
  intros Hpre Hb. induction Hpre as [|c pre Hc _ IH]; simpl.
  - rewrite Hb. reflexivity.
  - rewrite Hc. exact IH.
Qed.

(** The frame numbers of the collected detections increase strictly: list
    order is frame order. *)
Lemma observations_from_frames n fs :
  Forall (fun b => n < ball_frame b) (observations_from n fs)
  /\ forall pre b post,
       observations_from n fs = pre ++ b :: post ->
       Forall (fun c => ball_frame c < ball_frame b) pre.
Proof.
  revert n. induction fs as [|f fs IH]; intros n; simpl.
  - split; [constructor|]. intros [|? ?] ? ? H; discriminate.
  - destruct (IH (n + 1)) as [Hall Hord].
    assert (Hall' : Forall (fun b => n < ball_frame b) (observations_from (n + 1) fs)).
    { eapply Forall_impl; [|exact Hall]. simpl. intros; lia. }
    destruct (ball_pos f) as [[bx by_]|].
    + split.
      * constructor; [unfold ball_frame; simpl; lia|exact Hall'].
      * intros pre b post H. destruct pre as [|c pre]; [constructor|].
        simpl in H. injection H as Hc Hrest. subst c.
        constructor.
        -- assert (Hb : In b (observations_from (n + 1) fs))
             by (rewrite Hrest; apply in_elt).
           rewrite Forall_forall in Hall. specialize (Hall b Hb).
           unfold ball_frame at 1; simpl. exact Hall.
        -- eapply Hord, Hrest.
    + split; [exact Hall'|]. intros pre b post H. eapply Hord, H.
Qed.

(** Claim C6.  Without a manual origin and with a person hint [p], the origin
    is the x of the first point of the trajectory whose x differs from [p] by
    less than 200, whenever there is such a point; the trajectory itself is
    kept as collected.  In the trajectory a video yields, the points before
    that one are those of earlier frames. *)
Theorem origin_first_ball_near_person config p pre b post :
  manual_origin_x config = None ->
  3 <= len (pre ++ b :: post) ->
  Forall (fun c => near_person p c = false) pre ->
  near_person p b = true ->
  override_origin config (fst (find_origin (Some p) (pre ++ b :: post))) = ball_x b
  /\ snd (find_origin (Some p) (pre ++ b :: post)) = pre ++ b :: post
  /\ (forall fs, observations fs = pre ++ b :: post ->
                 Forall (fun c => ball_frame c < ball_frame b) pre).
Proof.
  intros Hm _ Hpre Hb. unfold find_origin, override_origin.
  rewrite (filter_first _ _ _ _ Hpre Hb), Hm.
  split; [reflexivity|]. split; [reflexivity|].
  intros fs Hfs. eapply (proj2 (observations_from_frames 0 fs)), Hfs.
Qed.

Lemma origin_first_ball_near_person_witness :
  (manual_origin_x config_auto = None /\
   3 <= len (balls_boundary_pre ++ (150, 30, 3) :: balls_boundary_post) /\
   Forall (fun c => near_person 300 c = false) balls_boundary_pre /\
   near_person 300 (150, 30, 3) = true) /\
  override_origin config_auto
    (fst (find_origin (Some 300)
            (balls_boundary_pre ++ (150, 30, 3) :: balls_boundary_post))) = 150.
Proof.
  assert (H : Forall (fun c => near_person 300 c = false) balls_boundary_pre)
    by (repeat constructor).
  split.
  - repeat split; [discriminate|exact H].
  - apply (origin_first_ball_near_person config_auto 300 balls_boundary_pre
             (150, 30, 3) balls_boundary_post eq_refl);
      [discriminate|exact H|reflexivity].
Defined.

(** The test is strict: a point exactly 200 pixels from the hint is not near. *)
Example near_person_boundary :
  near_person 300 (100, 20, 2) = false /\ near_person 300 (101, 20, 2) = true.
Proof. split; reflexivity. Qed.

(** What the scan with [break] finds on a range of consecutive indices. *)
Lemma scan_onset_seq threshold balls n : forall s,
  match scan_onset threshold balls (seq s n) with
  | Some i =>
      (s <= i < s + n)%nat /\
      moved threshold balls i = true /\
      forall j, (s <= j < i)%nat -> moved threshold balls j = false
  | None =>
      forall j, (s <= j < s + n)%nat -> moved threshold balls j = false
  end.
Proof.
  induction n as [|n IH]; intros s; simpl.
  - intros j Hj. lia.
  - fold (moved threshold balls s).
    destruct (moved threshold balls s) eqn:E.
    + split; [lia|]. split; [exact E|]. intros j Hj. lia.
    + specialize (IH (S s)).
      destruct (scan_onset threshold balls (seq (S s) n)) as [i|].
      * destruct IH as (Hi & Hm & Hbefore).
        split; [lia|]. split; [exact Hm|].
        intros j Hj. destruct (Nat.eq_dec j s) as [->|Hne]; [exact E|].
        apply Hbefore. lia.
      * intros j Hj. destruct (Nat.eq_dec j s) as [->|Hne]; [exact E|].
        apply IH. lia.
Qed.

(** The scan reads [all_balls] inside its bounds only. *)
Lemma scan_range_in_bounds balls i :
  In i (scan_range balls) ->
  (i + 2 < length balls)%nat /\ (Z.to_nat (Z.max 0 (Z.of_nat i - 1)) < length balls)%nat.
Proof.
  unfold scan_range. intros H. apply in_seq in H. lia.
Qed.

Lemma x_before_pred balls i : x_before balls i = ball_x (ball_at balls (Nat.pred i)).
Proof.
  unfold x_before. do 2 f_equal.
  destruct i as [|i]; [reflexivity|]. rewrite Nat2Z.inj_succ. simpl Nat.pred. lia.
Qed.

(** After the static filter the fallback origin is the first point of the
    trajectory that is kept. *)
Lemma drop_static_origin balls :
  snd (drop_static balls (ball_x (ball_at balls 0))) =
  ball_x (ball_at (fst (drop_static balls (ball_x (ball_at balls 0)))) 0).
Proof.
  unfold drop_static.
  destruct (dominant _ _); [|reflexivity].
  destruct (3 <=? len _); reflexivity.
Qed.

Lemma find_origin_far p balls :
  filter (near_person p) balls = [] ->
  find_origin (Some p) balls =
  (movement_start (fst (drop_static balls (ball_x (ball_at balls 0))))
                  (snd (drop_static balls (ball_x (ball_at balls 0)))),
   fst (drop_static balls (ball_x (ball_at balls 0)))).
Proof.
  intros H. unfold find_origin. rewrite H.
  destruct (drop_static balls _); reflexivity.
Qed.

(** Claim C7, as the code has it.  With a hint and no point near it, the
    origin comes from a scan of the (possibly filtered) trajectory over the
    indices [i] with [i + 3 < len]: at the first such [i] with
    [|x[i+2] - x[i]| > 20] the origin is the x at index [max(0, i-1)], and
    without such an index it is the x of the first point.  The last triple
    [(len-3, len-1)] is not examined; on a trajectory of 3 or 4 points the
    origin is the x of the first point. *)
Theorem origin_by_movement_scan p balls :
  filter (near_person p) balls = [] ->
  let origin := fst (find_origin (Some p) balls) in
  let traj := snd (find_origin (Some p) balls) in
  traj = fst (drop_static balls (ball_x (ball_at balls 0)))
  /\ ((exists i,
         (i + 3 < length traj)%nat /\
         moved 20 traj i = true /\
         (forall j, (j < i)%nat -> moved 20 traj j = false) /\
         origin = ball_x (ball_at traj (Nat.pred i)))
      \/ ((forall j, (j + 3 < length traj)%nat -> moved 20 traj j = false) /\
          origin = ball_x (ball_at traj 0)))
  /\ ((length traj <= 4)%nat -> origin = ball_x (ball_at traj 0)).
Proof.
  intros Hfar. rewrite (find_origin_far _ _ Hfar). simpl.
  set (traj := fst (drop_static balls (ball_x (ball_at balls 0)))).
  rewrite drop_static_origin. fold traj.
  split; [reflexivity|].
  unfold movement_start, scan_range.
  pose proof (scan_onset_seq 20 traj (length traj - 3) 0) as Hscan.
  destruct (scan_onset 20 traj (seq 0 (length traj - 3))) as [i|].
  - destruct Hscan as (Hi & Hm & Hbefore). split.
    + left. exists i. split; [lia|]. split; [exact Hm|].
      split; [intros j Hj; apply Hbefore; lia|apply x_before_pred].
    + intros Hlen. rewrite x_before_pred.
      assert (i = 0)%nat as -> by lia. reflexivity.
  - split; [|reflexivity].
    right. split; [|reflexivity]. intros j Hj. apply Hscan. lia.
Qed.

Lemma origin_by_movement_scan_witness :
  filter (near_person 1000) balls_late_move = [] /\
  fst (find_origin (Some 1000) balls_late_move) = 0.
Proof.
  split; [reflexivity|].
  pose proof (origin_by_movement_scan 1000 balls_late_move eq_refl) as (_ & H & _).
  destruct H as [(i & Hi & Hm & _ & _)|[_ H]].
  - destruct i as [|[|i]]; [discriminate Hm|discriminate Hm|].
    simpl in Hi. lia.
  - exact H.
Defined.

(** Claim C7, as stated: a scan of every consecutive triple would find the
    movement between points 2 and 4 of [balls_late_move] and place the origin
    at point 1 (x = 10); the code does not examine that triple and keeps the
    first point (x = 0).  On a 3-point trajectory the code examines no
    triple at all. *)
Lemma last_triple_not_examined :
  filter (near_person 1000) balls_late_move = []
  /\ snd (find_origin (Some 1000) balls_late_move) = balls_late_move
  /\ moved 20 balls_late_move 2 = true
  /\ spec_movement_start balls_late_move (ball_x (ball_at balls_late_move 0)) = 10
  /\ fst (find_origin (Some 1000) balls_late_move) = 0
  /\ fst (find_origin (Some 1000) balls_late_move)
       <> spec_movement_start balls_late_move (ball_x (ball_at balls_late_move 0))
  /\ spec_scan_range balls_scenario = [0%nat]
  /\ scan_range balls_scenario = [].
Proof.
  repeat split; try reflexivity. discriminate.
Qed.


(* ================================================================== *)
(** * The static-cluster filter *)
(* ================================================================== *)

Lemma dict_item_incr k d k' :
  dict_item (dict_incr k d) k' = dict_item d k' + (if k =? k' then 1 else 0).
Proof.
  induction d as [|[k0 c] d IH]; simpl.
  - rewrite Z.eqb_sym. destruct (k' =? k); reflexivity.
  - destruct (k0 =? k) eqn:E0; simpl.
    + apply Z.eqb_eq in E0. subst k0.
      destruct (k =? k'); lia.
    + rewrite IH. destruct (k0 =? k') eqn:E1; [|reflexivity].
      apply Z.eqb_eq in E1. subst k0. rewrite Z.eqb_sym, E0. lia.
Qed.

Lemma dict_incr_keys k d k' :
  In k' (map fst (dict_incr k d)) <-> k' = k \/ In k' (map fst d).
Proof.
  induction d as [|[k0 c] d IH]; simpl.
  - intuition.
  - destruct (k0 =? k) eqn:E0; simpl.
    + apply Z.eqb_eq in E0. subst k0. intuition.
    + rewrite IH. intuition.
Qed.

Lemma dict_item_absent d k : ~ In k (map fst d) -> dict_item d k = 0.
Proof.
  induction d as [|[k0 c] d IH]; simpl; [reflexivity|].
  intros H. destruct (k0 =? k) eqn:E.
  - apply Z.eqb_eq in E. tauto.
  - apply IH. tauto.
Qed.

Lemma fold_counts_item balls : forall d k,
  dict_item (fold_left (fun d b => dict_incr (bucket (ball_x b)) d) balls d) k =
  dict_item d k + len (filter (same_bucket k) balls).
Proof.
  induction balls as [|b balls IH]; intros d k; simpl.
  - unfold len; simpl. lia.
  - rewrite IH, dict_item_incr. unfold same_bucket at 2.
    destruct (bucket (ball_x b) =? k); unfold len; simpl length; lia.
Qed.

Lemma fold_counts_keys balls : forall d k,
  In k (map fst (fold_left (fun d b => dict_incr (bucket (ball_x b)) d) balls d)) <->
  In k (map fst d) \/ exists b, In b balls /\ bucket (ball_x b) = k.
Proof.
  induction balls as [|b balls IH]; intros d k; simpl.
  - split; [auto|]. intros [H|(b & [] & _)]. exact H.
  - rewrite IH, dict_incr_keys. split.
    + intros [[->|H]|(b' & Hb' & E)]; eauto.
    + intros [H|(b' & [->|Hb'] & E)]; eauto.
Qed.

(** The bins have width 50: [bucket x] is the multiple of 50 with
    [bucket x <= x < bucket x + 50]. *)
Lemma bucket_bin x j : bucket x = 50 * j <-> 50 * j <= x < 50 * j + 50.
Proof.
  unfold bucket.
  pose proof (Z.div_mod x 50 ltac:(lia)) as Hdm.
  pose proof (Z.mod_pos_bound x 50 ltac:(lia)) as Hb.
  split; intros H; [lia|].
  assert (x / 50 = j) by nia. lia.
Qed.

Lemma same_bucket_in_bin j b : same_bucket (50 * j) b = in_bin (50 * j) b.
Proof.
  unfold same_bucket, in_bin.
  destruct (bucket (ball_x b) =? 50 * j) eqn:E.
  - apply Z.eqb_eq, bucket_bin in E. symmetry.
    apply andb_true_iff. split; [apply Z.leb_le|apply Z.ltb_lt]; lia.
  - symmetry. apply not_true_is_false. intros H.
    apply andb_true_iff in H as [H1 H2].
    apply Z.leb_le in H1. apply Z.ltb_lt in H2.
    apply Z.eqb_neq in E. apply E, bucket_bin. lia.
Qed.

(** The dictionary counts the points of each bin. *)
Lemma position_counts_item balls j :
  dict_item (position_counts balls) (50 * j) = bin_count (50 * j) balls.
Proof.
  unfold position_counts, bin_count. rewrite fold_counts_item. simpl.
  f_equal. apply filter_ext. intros b. apply same_bucket_in_bin.
Qed.

Lemma position_counts_keys balls k :
  In k (map fst (position_counts balls)) <->
  exists b, In b balls /\ bucket (ball_x b) = k.
Proof.
  unfold position_counts. rewrite fold_counts_keys. simpl. tauto.
Qed.

Lemma bin_count_nonneg k balls : 0 <= bin_count k balls.
Proof. unfold bin_count, len. lia. Qed.

(** The static bucket is a bin of the trajectory that no bin outnumbers. *)
Lemma static_bucket_modal balls :
  balls <> [] ->
  let sb := static_bucket_of (position_counts balls) in
  (exists j, sb = 50 * j)
  /\ (exists b, In b balls /\ in_bin sb b = true)
  /\ dict_item (position_counts balls) sb = bin_count sb balls
  /\ (forall j, bin_count (50 * j) balls <= bin_count sb balls).
Proof.
  intros Hne sb.
  assert (Hkey : In sb (map fst (position_counts balls))).
  { unfold sb, static_bucket_of.
    destruct (map fst (position_counts balls)) as [|k ks] eqn:Ek.
    - destruct balls as [|b balls]; [contradiction|].
      assert (H : In (bucket (ball_x b)) (map fst (position_counts (b :: balls))))
        by (apply position_counts_keys; exists b; split; [left|]; reflexivity).
      rewrite Ek in H. destruct H.
    - apply py_max_from_In. }
  pose proof Hkey as Hb. apply position_counts_keys in Hb as (b & Hb & Ebk).
  assert (Hj : sb = 50 * (ball_x b / 50)) by (rewrite <- Ebk; unfold bucket; lia).
  split; [eauto|]. split; [|split].
  - exists b. split; [exact Hb|].
    rewrite Hj, <- same_bucket_in_bin. unfold same_bucket.
    apply Z.eqb_eq. rewrite <- Hj. exact Ebk.
  - rewrite Hj. apply position_counts_item.
  - intros j.
    assert (E1 : bin_count sb balls = dict_item (position_counts balls) sb)
      by (rewrite Hj; symmetry; apply position_counts_item).
    rewrite E1, <- position_counts_item.
    destruct (in_dec Z.eq_dec (50 * j) (map fst (position_counts balls))) as [Hin|Hout].
    + clear - Hin. subst sb. unfold static_bucket_of.
      destruct (map fst (position_counts balls)) as [|k ks]; [destruct Hin|].
      apply (py_max_from_max (dict_item (position_counts balls)) k ks _ Hin).
    + rewrite (dict_item_absent _ _ Hout), <- E1. apply bin_count_nonneg.
Qed.


Lemma dominant_small :
  dominant_agrees_upto 2000 = true.
Proof. vm_compute. reflexivity. Qed.

Lemma float_table_In n k :
  0 <= k <= Z.of_nat n -> In (k, float_of_Z k) (float_table n).
Proof.
  intros Hk. unfold float_table. apply in_map_iff.
  exists (Z.to_nat k). rewrite Z2Nat.id by lia.
  split; [reflexivity|]. apply in_seq. lia.
Qed.

Lemma dominant_agrees n count total :
  dominant_agrees_upto n = true ->
  0 <= count <= Z.of_nat n -> 0 <= total <= Z.of_nat n ->
  dominant count total = more_than_40_percent count total.
Proof.
  unfold dominant_agrees_upto. cbv zeta. intros H Hc Ht.
  rewrite forallb_forall in H.
  specialize (H _ (float_table_In n total Ht)).
  rewrite forallb_forall in H.
  specialize (H _ (float_table_In n count Hc)).
  apply eqb_prop in H. exact H.
Qed.

(** On trajectories of up to 2000 points the float test
    [static_count > len(all_balls) * 0.4] is "more than 40%" exactly. *)
Lemma dominant_exact count total :
  0 <= count <= 2000 -> 0 <= total <= 2000 ->
  dominant count total = more_than_40_percent count total.
Proof.
  intros Hc Ht. apply (dominant_agrees 2000); [exact dominant_small| |].
  - change (Z.of_nat 2000) with 2000. exact Hc.
  - change (Z.of_nat 2000) with 2000. exact Ht.
Qed.

Lemma filter_length_le {A : Type} (f : A -> bool) (l : list A) :
  len (filter f l) <= len l.
Proof.
  unfold len. induction l as [|a l IH]; simpl; [lia|].
  destruct (f a); simpl length; lia.
Qed.

Lemma off_cluster_spec sb b :
  off_cluster sb b = true <-> 75 < Z.abs (ball_x b - (sb + 25)).
Proof.
  unfold off_cluster. rewrite Z.ltb_lt.
  replace (ball_x b - sb - 25) with (ball_x b - (sb + 25)) by lia. tauto.
Qed.

(** Claim C8.  With a hint and no point near it, the x values are counted in
    bins of width 50; [sb], the bin with the most points, is the static
    bucket.  When its count is more than 40% of the points (the float test
    [static_count > len * 0.4], exact up to 2000 points at least) the points
    within 75 pixels of the bin centre [sb + 25] are dropped, provided at
    least 3 points remain; in every other case the trajectory is kept. *)
Theorem static_cluster_filter p balls :
  balls <> [] ->
  filter (near_person p) balls = [] ->
  let sb := static_bucket_of (position_counts balls) in
  let kept := filter (off_cluster sb) balls in
  (exists j, sb = 50 * j)
  /\ (exists b, In b balls /\ in_bin sb b = true)
  /\ (forall j, bin_count (50 * j) balls <= bin_count sb balls)
  /\ (forall b, In b kept <-> In b balls /\ 75 < Z.abs (ball_x b - (sb + 25)))
  /\ snd (find_origin (Some p) balls) =
       (if dominant (bin_count sb balls) (len balls) && (3 <=? len kept)
        then kept else balls)
  /\ (len balls <= 2000 ->
       dominant (bin_count sb balls) (len balls) =
       more_than_40_percent (bin_count sb balls) (len balls)).
Proof.
  intros Hne Hfar sb kept.
  destruct (static_bucket_modal balls Hne) as (Hj & Hb & Hcount & Hmax).
  fold sb in Hj, Hb, Hcount, Hmax.
  split; [exact Hj|]. split; [exact Hb|]. split; [exact Hmax|]. split; [|split].
  - intros b. unfold kept. rewrite filter_In, off_cluster_spec. tauto.
  - rewrite (find_origin_far _ _ Hfar). simpl.
    unfold drop_static. fold sb. rewrite Hcount. fold kept.
    destruct (dominant _ _); simpl; [|reflexivity].
    destruct (3 <=? len kept); reflexivity.
  - intros Hlen. apply dominant_exact.
    + split; [apply bin_count_nonneg|].
      pose proof (filter_length_le (in_bin sb) balls). unfold bin_count. lia.
    + unfold len in *. lia.
Qed.

Lemma static_cluster_filter_witness :
  (balls_static <> [] /\ filter (near_person 2000) balls_static = []) /\
  snd (find_origin (Some 2000) balls_static) = [ (300, 20, 4); (400, 30, 5); (500, 40, 6) ].
Proof.
  assert (H : balls_static <> []) by discriminate.
  split; [split; [exact H|reflexivity]|].
  pose proof (static_cluster_filter 2000 balls_static H eq_refl)
    as (_ & _ & _ & _ & E & _).
  rewrite E. reflexivity.
Defined.

(* ================================================================== *)
(** * The result of a completed run *)
(* ================================================================== *)

(** With at least three points the analysis is the landing search on the
    resolved trajectory followed by the distance computation. *)
Lemma analyse_enough config st :
  3 <= len (all_balls st) ->
  analyse config st =
  (let '(origin_x, traj) := resolved_origin config (person_x_hint st) (all_balls st) in
   let sc := scale_or_default (scale st) in
   i <- landing_index traj ;;
   d <- int_to_float (Z.abs (ball_x (ball_at traj i) - origin_x)) ;;
   Return (valid_result (d * sc) sc (len traj))).
Proof.
  intros H. unfold analyse, resolved_origin.
  apply Z.ltb_ge in H. rewrite H.
  destruct (find_origin (person_x_hint st) (all_balls st)) as [o traj].
  reflexivity.
Qed.

Lemma analyse_status config st r :
  analyse config st = Return r ->
  (len (all_balls st) < 3 /\ status r = "INVALID"%string)
  \/ (3 <= len (all_balls st) /\ status r = "VALID"%string).
Proof.
  destruct (Z.ltb_spec (len (all_balls st)) 3) as [Hlt|Hge].
  - unfold analyse. apply Z.ltb_lt in Hlt. rewrite Hlt.
    intros H. inversion H; subst. left. split; [apply Z.ltb_lt, Hlt|reflexivity].
  - rewrite (analyse_enough _ _ Hge).
    destruct (resolved_origin _ _ _) as [o traj]. cbv zeta.
    destruct (landing_index traj) as [i|e]; simpl; [|discriminate].
    destruct (int_to_float _) as [d|e]; simpl; [|discriminate].
    intros H. inversion H; subst. right. split; [exact Hge|reflexivity].
Qed.

Lemma run_scale_eq config h fs :
  scale_or_default (scale (state_after h (initial_state config) fs)) = run_scale config h fs.
Proof.
  unfold run_scale. simpl. destruct (manual_scale_cm_per_px config); reflexivity.
Qed.

(** A [VALID] result of [process_video] comes from a completed run with at
    least three observations. *)
Lemma process_video_valid config video h sp elapsed r :
  process_video config video h sp elapsed = Return r ->
  status r = "VALID"%string ->
  cancel_free sp (frames video) = true
  /\ 3 <= len (observations (frames video))
  /\ exists r0,
       analyse config (state_after h (initial_state config) (frames video)) = Return r0
       /\ r = set_processing_time r0 elapsed.
Proof.
  unfold process_video.
  destruct (path_exists video); simpl;
    [|intros H; inversion H; subst; discriminate].
  destruct (is_opened video); simpl;
    [|intros H; inversion H; subst; discriminate].
  rewrite _process_cases.
  destruct (cancel_free sp (frames video)); simpl;
    [|intros H; inversion H; subst; discriminate].
  destruct (analyse _ _) as [r0|e] eqn:E; simpl; [|discriminate].
  intros H Hs. inversion H; subst. simpl in Hs.
  split; [reflexivity|]. split; [|eauto].
  destruct (analyse_status _ _ _ E) as [[_ Hi]|[Hge _]].
  - rewrite Hi in Hs. discriminate.
  - exact Hge.
Qed.

(* ================================================================== *)
(** * Distance *)
(* ================================================================== *)

Lemma first_derived_scale_plausible h fs c :
  first_derived_scale h fs = Some c -> plausible_scale c = true.
Proof.
  intros H.
  destruct (first_derived_scale_some _ _ _ H) as (pre & f & post & _ & _ & Hf).
  apply derived_scale_some in Hf as (px & ph & _ & _ & _ & Hlo & Hhi).
  unfold plausible_scale. rewrite Hlo, Hhi. reflexivity.
Qed.

(** Without a manual scale the scale of a run is finite and not negative. *)
Lemma run_scale_bounds config h fs :
  manual_scale_cm_per_px config = None ->
  nonneg (run_scale config h fs) = true /\ is_finite (run_scale config h fs) = true.
Proof.
  intros Hm. unfold run_scale. rewrite Hm.
  destruct (first_derived_scale h fs) as [c|] eqn:E; simpl.
  - apply plausible_scale_bounds, (first_derived_scale_plausible _ _ _ E).
  - apply default_scale_bounds.
Qed.

Lemma distance_nonneg n d sc :
  0 <= n -> int_to_float n = Return d ->
  nonneg sc = true -> is_finite sc = true ->
  nonneg (py_round (d * sc) 2) = true.
Proof.
  intros Hn Hd Hsc Hfin.
  destruct (int_to_float_nonneg _ _ Hn Hd) as [Hd0 Hdinf].
  apply py_round_nonneg, mul_nonneg; assumption.
Qed.

(** The shape of every [VALID] result of [process_video]. *)
Lemma valid_run_inv config video h sp elapsed r :
  process_video config video h sp elapsed = Return r ->
  status r = "VALID"%string ->
  let origin_x := fst (resolved_origin config (first_person_x (frames video))
                         (observations (frames video))) in
  let traj := snd (resolved_origin config (first_person_x (frames video))
                     (observations (frames video))) in
  let sc := run_scale config h (frames video) in
  exists i d,
    landing_index traj = Return i
    /\ int_to_float (Z.abs (ball_x (ball_at traj i) - origin_x)) = Return d
    /\ r = set_processing_time (valid_result (d * sc) sc (len traj)) elapsed.
Proof.
  intros Hr Hs origin_x traj sc.
  destruct (process_video_valid _ _ _ _ _ _ Hr Hs) as (_ & Hge & r0 & Ha & ->).
  rewrite analyse_enough in Ha by exact Hge.
  rewrite run_scale_eq in Ha. simpl person_x_hint in Ha. simpl all_balls in Ha.
  fold (observations (frames video)) in Ha.
  subst origin_x traj sc.
  destruct (resolved_origin _ _ _) as [o t]. cbv zeta in Ha. simpl fst. simpl snd.
  destruct (landing_index t) as [i|e]; simpl in Ha; [|discriminate].
  destruct (int_to_float _) as [d|e] eqn:Ed; simpl in Ha; [|discriminate].
  inversion Ha; subst r0. clear Ha.
  exists i, d. split; [reflexivity|]. split; [exact Ed|reflexivity].
Qed.

(** Claim C2, as the code has it.  A [VALID] result reports
    [distance_cm = round(|landing_x - origin_x| * scale, 2)] and
    [distance_m = round(|landing_x - origin_x| * scale / 100, 3)] (the
    unrounded product divided by 100), with the landing point taken from the
    resolved trajectory and [scale] the manual scale, else the first derived
    one, else the default 0.5.  [distance_cm >= 0] holds whenever the scale
    is finite and not negative, hence in every run without a manual scale. *)
Theorem distance_is_rounded_product config video h sp elapsed r :
  process_video config video h sp elapsed = Return r ->
  status r = "VALID"%string ->
  let origin_x := fst (resolved_origin config (first_person_x (frames video))
                         (observations (frames video))) in
  let traj := snd (resolved_origin config (first_person_x (frames video))
                     (observations (frames video))) in
  let sc := run_scale config h (frames video) in
  exists i d,
    landing_index traj = Return i
    /\ int_to_float (Z.abs (ball_x (ball_at traj i) - origin_x)) = Return d
    /\ distance_cm r = Some (py_round (d * sc) 2)
    /\ distance_m r = Some (py_round (d * sc / f100) 3)
    /\ calibration_scale r = Some sc
    /\ (manual_scale_cm_per_px config = None ->
        first_derived_scale h (frames video) = None -> sc = f0_5)
    /\ (nonneg sc = true -> is_finite sc = true ->
        nonneg (py_round (d * sc) 2) = true)
    /\ (manual_scale_cm_per_px config = None ->
        nonneg (py_round (d * sc) 2) = true).
Proof.
  intros Hr Hs origin_x traj sc.
  destruct (valid_run_inv _ _ _ _ _ _ Hr Hs) as (i & d & Hi & Hd & ->).
  fold origin_x traj sc in Hi, Hd.
  exists i, d.
  split; [exact Hi|]. split; [exact Hd|].
  split; [reflexivity|]. split; [reflexivity|]. split; [reflexivity|].
  assert (Hpos : nonneg sc = true -> is_finite sc = true ->
                 nonneg (py_round (d * sc) 2) = true).
  { intros H1 H2. eapply distance_nonneg; eauto. apply Z.abs_nonneg. }
  split; [|split; [exact Hpos|]].
  - intros Hm Hd0. unfold sc, run_scale. rewrite Hm, Hd0. reflexivity.
  - intros Hm. destruct (run_scale_bounds config h (frames video) Hm).
    apply Hpos; assumption.
Qed.

Lemma distance_is_rounded_product_witness :
  process_video config_auto (video_of frames_scenario) 175 false 12 =
    Return (set_processing_time (valid_result 100 0.5 3) 12)
  /\ exists i d,
       landing_index balls_scenario = Return i
       /\ int_to_float (Z.abs (ball_x (ball_at balls_scenario i) - 100)) = Return d
       /\ Some 100%float = Some (py_round (d * 0.5) 2).
Proof.
  split; [reflexivity|].
  destruct (distance_is_rounded_product config_auto (video_of frames_scenario)
              175 false 12 (set_processing_time (valid_result 100 0.5 3) 12)
              eq_refl eq_refl) as (i & d & Hi & Hd & Hcm & _).
  exists i, d. split; [exact Hi|]. split; [exact Hd|exact Hcm].
Defined.

(** Claim C2, as stated: a negative manual scale is used as it is, and the
    reported distance is negative. *)
Lemma negative_scale_negative_distance :
  process_video (config_scale (-1)) (video_of frames_scenario) 175 false 12 =
    Return (set_processing_time (valid_result (-200) (-1) 3) 12)
  /\ distance_cm (set_processing_time (valid_result (-200) (-1) 3) 12)
     = Some (-200)%float
  /\ nonneg (-200) = false.
Proof. repeat split. Qed.

(** [distance_m] is rounded from the unrounded product: for a product of
    0.246 it is 0.002, where rounding the reported [distance_cm] (0.25) again
    would give 0.003. *)
Example distance_m_not_rounded_twice :
  py_round 0x1.f7ced916872bp-3 2 = 0.25%float
  /\ py_round (0x1.f7ced916872bp-3 / f100) 3 = 0x1.0624dd2f1a9fcp-9%float
  /\ py_round (py_round 0x1.f7ced916872bp-3 2 / f100) 3 = 0x1.89374bc6a7efap-9%float.
Proof. repeat split. Qed.

(* ================================================================== *)
(** * The filtered trajectory in the result *)
(* ================================================================== *)

Lemma filter_shorter {A : Type} (f : A -> bool) (l : list A) :
  filter f l <> l -> len (filter f l) < len l.
Proof.
  unfold len. induction l as [|a l IH]; simpl; [congruence|].
  pose proof (filter_length_le f l) as Hle. unfold len in Hle.
  destruct (f a); simpl length.
  - intros H. assert (filter f l <> l) by congruence.
    specialize (IH H0). lia.
  - intros _. lia.
Qed.

(** The trajectory after origin resolution is the collected one or its
    static-filtered part. *)
Lemma find_origin_trajectory hint balls :
  snd (find_origin hint balls) = balls
  \/ snd (find_origin hint balls) =
       filter (off_cluster (static_bucket_of (position_counts balls))) balls.
Proof.
  unfold find_origin. destruct hint as [p|]; [|left; reflexivity].
  destruct (filter (near_person p) balls); [|left; reflexivity].
  unfold drop_static.
  destruct (dominant _ _); [|left; reflexivity].
  destruct (3 <=? len _); [right|left]; reflexivity.
Qed.

(** A point of the static bucket's own bin is always within 75 pixels of
    the bin centre, so the filter never keeps the whole trajectory. *)
Lemma static_filter_strict balls :
  balls <> [] ->
  len (filter (off_cluster (static_bucket_of (position_counts balls))) balls) < len balls.
Proof.
  intros Hne. apply filter_shorter. intros E.
  destruct (static_bucket_modal balls Hne) as (_ & (b & Hb & Hbin) & _).
  rewrite <- E in Hb. apply filter_In in Hb as [_ Hoff].
  apply off_cluster_spec in Hoff.
  unfold in_bin in Hbin. apply andb_true_iff in Hbin as [H1 H2].
  apply Z.leb_le in H1. apply Z.ltb_lt in H2. lia.
Qed.

(** When the filter applies, the trajectory is the filtered list. *)
Lemma find_origin_filtered p balls :
  balls <> [] ->
  filter (near_person p) balls = [] ->
  let sb := static_bucket_of (position_counts balls) in
  dominant (bin_count sb balls) (len balls) = true ->
  3 <= len (filter (off_cluster sb) balls) ->
  snd (find_origin (Some p) balls) = filter (off_cluster sb) balls.
Proof.
  intros Hne Hfar sb Hdom Hlen.
  destruct (static_bucket_modal balls Hne) as (_ & _ & Hcount & _). fold sb in Hcount.
  rewrite (find_origin_far _ _ Hfar). simpl.
  unfold drop_static. fold sb. rewrite Hcount, Hdom.
  apply Z.leb_le in Hlen. rewrite Hlen. reflexivity.
Qed.

(** Claim C9.  In a [VALID] result the point count is the length of the
    trajectory left by origin resolution and the landing point is a maximal-y
    point of that trajectory.  Whenever the static filter applies (a hint, no
    point near it, a dominant bin, at least 3 points left), and only then,
    this trajectory is the filtered list, and the point count is strictly
    below the number of collected observations.  The run on [frames_static]
    is such a case: 6 observations, 3 reported points. *)
Theorem filtered_trajectory_is_reported config video h sp elapsed r :
  process_video config video h sp elapsed = Return r ->
  status r = "VALID"%string ->
  let collected := observations (frames video) in
  let hint := first_person_x (frames video) in
  let traj := snd (find_origin hint collected) in
  let origin_x := override_origin config (fst (find_origin hint collected)) in
  let kept := filter (off_cluster (static_bucket_of (position_counts collected))) collected in
  trajectory_points r = len traj
  /\ (exists i d,
        landing_index traj = Return i
        /\ In (ball_at traj i) traj
        /\ (forall b, In b traj -> ball_y b <= ball_y (ball_at traj i))
        /\ int_to_float (Z.abs (ball_x (ball_at traj i) - origin_x)) = Return d
        /\ distance_cm r = Some (py_round (d * run_scale config h (frames video)) 2))
  /\ (forall p,
        hint = Some p ->
        filter (near_person p) collected = [] ->
        dominant (bin_count (static_bucket_of (position_counts collected)) collected)
                 (len collected) = true ->
        3 <= len kept ->
        traj = kept /\ trajectory_points r < len collected)
  /\ (traj <> collected -> traj = kept /\ trajectory_points r < len collected)
  /\ (exists r',
        process_video config_auto (video_of frames_static) 175 false 0 = Return r'
        /\ status r' = "VALID"%string
        /\ trajectory_points r' = 3
        /\ len (observations frames_static) = 6).
Proof.
  intros Hr Hs collected hint traj origin_x kept.
  destruct (process_video_valid _ _ _ _ _ _ Hr Hs) as (_ & Hge & _).
  fold collected in Hge.
  assert (Hcne : collected <> []).
  { intros E. rewrite E in Hge. unfold len in Hge. simpl in Hge. lia. }
  destruct (valid_run_inv _ _ _ _ _ _ Hr Hs) as (i & d & Hi & Hd & ->).
  unfold resolved_origin in Hi, Hd. simpl fst in Hd. simpl snd in Hi, Hd.
  fold collected hint in Hi, Hd. fold traj in Hi, Hd. fold origin_x in Hd.
  assert (Hne : traj <> []).
  { intros E. rewrite E in Hi. discriminate. }
  destruct (landing_index_first_max traj Hne) as (i' & Hi' & Hlt & Hin & Hmax & _).
  rewrite Hi in Hi'. inversion Hi'; subst i'.
  assert (Hpts : trajectory_points
                   (set_processing_time
                      (valid_result (d * run_scale config h (frames video))
                         (run_scale config h (frames video))
                         (len (snd (resolved_origin config hint collected)))) elapsed)
                 = len traj) by reflexivity.
  split; [exact Hpts|]. split; [|split; [|split]].
  - exists i, d. split; [exact Hi|]. split; [exact Hin|]. split; [|split].
    + intros b Hb. destruct (In_nth _ _ (0, 0, 0) Hb) as (j & Hj & <-).
      apply Hmax, Hj.
    + exact Hd.
    + reflexivity.
  - intros p Hp Hfar Hdom Hlen.
    assert (E : traj = kept).
    { unfold traj. rewrite Hp. apply find_origin_filtered; assumption. }
    split; [exact E|]. change (len traj < len collected). rewrite E.
    apply static_filter_strict, Hcne.
  - intros Hchanged.
    destruct (find_origin_trajectory hint collected) as [E|E];
      fold traj in E; [contradiction|].
    split; [exact E|]. change (len traj < len collected). rewrite E.
    apply static_filter_strict, Hcne.
  - exists (valid_result 100 0.5 3). repeat split.
Qed.

Lemma filtered_trajectory_is_reported_witness :
  process_video config_auto (video_of frames_static) 175 false 0 =
    Return (valid_result 100 0.5 3)
  /\ trajectory_points (valid_result 100 0.5 3)
     = len (snd (find_origin (first_person_x frames_static) (observations frames_static)))
  /\ trajectory_points (valid_result 100 0.5 3) < len (observations frames_static).
Proof.
  split; [reflexivity|].
  destruct (filtered_trajectory_is_reported config_auto (video_of frames_static)
              175 false 0 (valid_result 100 0.5 3) eq_refl eq_refl)
    as (Hlen & _ & _ & Hshort & _).
  split; [exact Hlen|].
  apply Hshort. discriminate.
Defined.

(* ================================================================== *)
(** * Manual origin *)
(* ================================================================== *)

(** The analysis reads the trajectory, the hint and the scale of the loop
    state, nothing else. *)
Lemma analyse_ext config st1 st2 :
  all_balls st1 = all_balls st2 ->
  person_x_hint st1 = person_x_hint st2 ->
  scale st1 = scale st2 ->
  analyse config st1 = analyse config st2.
Proof.
  intros Hb Hh Hs. unfold analyse. rewrite Hb, Hh, Hs. reflexivity.
Qed.

(** Claim C4, as the code has it.  A manual origin other than 0 is the
    resolved origin for every trajectory and every hint.  The heuristics still
    run before the override: they decide the trajectory the landing point and
    the point count are taken from.  The result is a function of the
    trajectory, the hint, the scale and the configuration. *)
Theorem manual_origin_wins config m hint balls :
  manual_origin_x config = Some m ->
  m <> 0 ->
  fst (resolved_origin config hint balls) = m
  /\ snd (resolved_origin config hint balls) = snd (find_origin hint balls)
  /\ (forall st,
        all_balls st = balls -> person_x_hint st = hint -> 3 <= len balls ->
        analyse config st =
        (let traj := snd (find_origin hint balls) in
         let sc := scale_or_default (scale st) in
         i <- landing_index traj ;;
         d <- int_to_float (Z.abs (ball_x (ball_at traj i) - m)) ;;
         Return (valid_result (d * sc) sc (len traj))))
  /\ (forall st1 st2,
        all_balls st1 = balls -> all_balls st2 = balls ->
        person_x_hint st1 = hint -> person_x_hint st2 = hint ->
        scale st1 = scale st2 ->
        analyse config st1 = analyse config st2).
Proof.
  intros Hm Hne.
  assert (Ho : forall o, override_origin config o = m).
  { intros o. unfold override_origin. rewrite Hm.
    apply Z.eqb_neq in Hne. rewrite Hne. reflexivity. }
  split; [apply Ho|]. split; [reflexivity|]. split.
  - intros st Hb Hh Hge. rewrite analyse_enough by (rewrite Hb; exact Hge).
    unfold resolved_origin. rewrite Hb, Hh, Ho. reflexivity.
  - intros st1 st2 Hb1 Hb2 Hh1 Hh2 Hs.
    apply analyse_ext; congruence.
Qed.

Lemma manual_origin_wins_witness :
  (manual_origin_x (config_origin 50) = Some 50 /\ 50 <> 0) /\
  fst (resolved_origin (config_origin 50) (Some 2000) balls_static) = 50.
Proof.
  assert (H : 50 <> 0) by discriminate.
  split; [split; [reflexivity|exact H]|].
  apply (manual_origin_wins (config_origin 50) 50 (Some 2000) balls_static eq_refl H).
Defined.

(** Claim C4, as stated: with the manual origin 50 the static filter still
    drops three of the six points of [balls_static] when the thrower is seen
    far away, so that the same manual origin and the same detections give 3
    points and 225 cm in one video, 6 points and 20 cm in the other; a terminal
    manual origin would keep the trajectory.  A manual origin of 0 is not used
    at all. *)
Lemma manual_origin_heuristics_not_skipped :
  spec_resolve_origin (Some 50) (Some 2000) balls_static = (50, balls_static)
  /\ resolved_origin (config_origin 50) (Some 2000) balls_static
     = (50, [ (300, 20, 4); (400, 30, 5); (500, 40, 6) ])
  /\ resolved_origin (config_origin 50) (Some 2000) balls_static
     <> spec_resolve_origin (Some 50) (Some 2000) balls_static
  /\ observations frames_static = observations frames_static_unseen
  /\ process_video (config_origin 50) (video_of frames_static) 175 false 0
     = Return (valid_result 225 0.5 3)
  /\ process_video (config_origin 50) (video_of frames_static_unseen) 175 false 0
     = Return (valid_result 20 0.5 6)
  /\ spec_resolve_origin (Some 0) None balls_scenario = (0, balls_scenario)
  /\ resolved_origin (config_origin 0) None balls_scenario = (100, balls_scenario).
Proof.
  repeat split. discriminate.
Qed.

(* ================================================================== *)
(** * Completed runs return *)
(* ================================================================== *)

Lemma ball_at_In balls i : (i < length balls)%nat -> In (ball_at balls i) balls.
Proof. intros H. apply nth_In, H. Qed.

Lemma len_length {A : Type} (l : list A) n : Z.of_nat n <= len l -> (n <= length l)%nat.
Proof. unfold len. lia. Qed.

(** The static filter keeps a sub-list of at least three points, or the
    trajectory itself. *)
Lemma drop_static_sub balls o :
  incl (fst (drop_static balls o)) balls
  /\ (3 <= len balls -> 3 <= len (fst (drop_static balls o))).
Proof.
  unfold drop_static.
  destruct (dominant _ _); [|split; [apply incl_refl|auto]].
  destruct (3 <=? len (filter _ balls)) eqn:E; simpl.
  - split; [apply incl_filter|]. intros _. apply Z.leb_le, E.
  - split; [apply incl_refl|auto].
Qed.

Lemma find_origin_sub hint balls :
  3 <= len balls ->
  incl (snd (find_origin hint balls)) balls
  /\ 3 <= len (snd (find_origin hint balls))
  /\ exists b, In b balls /\ fst (find_origin hint balls) = ball_x b.
Proof.
  intros Hlen.
  assert (H0 : In (ball_at balls 0) balls).
  { apply ball_at_In. apply (len_length balls 3) in Hlen. lia. }
  unfold find_origin. destruct hint as [p|]; simpl.
  2: { split; [apply incl_refl|]. split; [exact Hlen|eauto]. }
  destruct (filter (near_person p) balls) as [|b near] eqn:En; simpl.
  2: { split; [apply incl_refl|]. split; [exact Hlen|].
       exists b. split; [|reflexivity].
       assert (Hb : In b (filter (near_person p) balls)) by (rewrite En; left; reflexivity).
       apply filter_In in Hb. tauto. }
  pose proof (drop_static_sub balls (ball_x (ball_at balls 0))) as [Hincl Hlen'].
  pose proof (drop_static_origin balls) as Ho.
  destruct (drop_static balls (ball_x (ball_at balls 0))) as [traj o]. simpl in *.
  specialize (Hlen' Hlen).
  split; [exact Hincl|]. split; [exact Hlen'|].
  unfold movement_start, scan_range.
  pose proof (scan_onset_seq 20 traj (length traj - 3) 0) as Hscan.
  apply (len_length traj 3) in Hlen'.
  destruct (scan_onset 20 traj (seq 0 (length traj - 3))) as [i|].
  - destruct Hscan as (Hi & _). rewrite x_before_pred.
    exists (ball_at traj (Nat.pred i)). split; [|reflexivity].
    apply Hincl, ball_at_In. lia.
  - exists (ball_at traj 0). split; [|exact Ho].
    apply Hincl, ball_at_In. lia.
Qed.


(* ================================================================== *)
(** * The four outcomes of [process_video] *)
(* ================================================================== *)

Lemma len_observations_from n fs : len (observations_from n fs) <= len fs.
Proof.
  unfold len. revert n. induction fs as [|f fs IH]; intros n; simpl; [lia|].
  specialize (IH (n + 1)).
  destruct (ball_pos f) as [[bx by_]|]; simpl length; lia.
Qed.

(** Every run of [process_video] that returns falls in one of four cases. *)
Lemma process_video_cases config video h sp elapsed r :
  process_video config video h sp elapsed = Return r ->
  (status r = "ERROR"%string
   /\ (path_exists video = false \/ is_opened video = false)
   /\ r = {| status := "ERROR"; distance_cm := None; distance_m := None;
             calibration_scale := None; trajectory_points := 0;
             processing_time_ms := 0%float;
             error_message := error_message r |}
   /\ error_message r <> None)
  \/ (path_exists video = true /\ is_opened video = true
      /\ cancel_free sp (frames video) = false
      /\ r = set_processing_time (default_result "CANCELLED") elapsed)
  \/ (path_exists video = true /\ is_opened video = true
      /\ cancel_free sp (frames video) = true
      /\ len (observations (frames video)) < 3
      /\ status r = "INVALID"%string
      /\ exists r0,
           analyse config (state_after h (initial_state config) (frames video)) = Return r0
           /\ r = set_processing_time r0 elapsed)
  \/ (path_exists video = true /\ is_opened video = true
      /\ cancel_free sp (frames video) = true
      /\ 3 <= len (observations (frames video))
      /\ status r = "VALID"%string
      /\ exists r0,
           analyse config (state_after h (initial_state config) (frames video)) = Return r0
           /\ r = set_processing_time r0 elapsed).
Proof.
  unfold process_video.
  destruct (path_exists video); simpl.
  2: { intros H. injection H as <-. left. simpl.
       split; [reflexivity|]. split; [auto|]. split; [reflexivity|discriminate]. }
  destruct (is_opened video); simpl.
  2: { intros H. injection H as <-. left. simpl.
       split; [reflexivity|]. split; [auto|]. split; [reflexivity|discriminate]. }
  rewrite _process_cases.
  destruct (cancel_free sp (frames video)); simpl.
  2: { intros H. injection H as <-. right. left. auto. }
  destruct (analyse _ _) as [r0|e] eqn:E; simpl; [|discriminate].
  intros H. injection H as <-.
  destruct (analyse_status _ _ _ E) as [[Hlt Hs]|[Hge Hs]].
  - right. right. left. repeat (split; [auto; fail|]). eauto.
  - right. right. right. repeat (split; [auto; fail|]). eauto.
Qed.

(** Property X1.  A result of [process_video] has one of the four statuses, and
    the status tells what happened: [ERROR] exactly when the file is missing
    or cannot be opened, [CANCELLED] exactly when the quit key was pressed
    under the preview, [INVALID] exactly when a completed run collected fewer
    than three detections, [VALID] exactly when it collected at least three. *)
Theorem process_video_outcome config video h sp elapsed r :
  process_video config video h sp elapsed = Return r ->
  let readable := path_exists video && is_opened video in
  let completed := readable && cancel_free sp (frames video) in
  let enough := 3 <=? len (observations (frames video)) in
  (status r = "ERROR" \/ status r = "CANCELLED"
   \/ status r = "INVALID" \/ status r = "VALID")%string
  /\ (status r = "ERROR"%string <-> readable = false)
  /\ (status r = "CANCELLED"%string <->
      readable = true /\ cancel_free sp (frames video) = false)
  /\ (status r = "INVALID"%string <-> completed = true /\ enough = false)
  /\ (status r = "VALID"%string <-> completed = true /\ enough = true).
Proof.
  intros H readable completed enough. subst readable completed enough.
  destruct (process_video_cases _ _ _ _ _ _ H)
    as [(Hs & Hf & _)
       |[(He & Ho & Hc & ->)
        |[(He & Ho & Hc & Hn & Hs & _)|(He & Ho & Hc & Hn & Hs & _)]]].
  - rewrite Hs.
    assert (Hr : path_exists video && is_opened video = false)
      by (destruct Hf as [-> | ->]; [reflexivity|apply andb_false_r]).
    rewrite Hr. simpl.
    split; [auto|]. split; [tauto|].
    repeat split; try discriminate; intros [? ?]; discriminate.
  - rewrite He, Ho, Hc. simpl.
    split; [auto|].
    repeat split; try discriminate; try (intros [? ?]; discriminate); auto.
  - rewrite He, Ho, Hc, Hs. simpl.
    apply Z.leb_gt in Hn. rewrite Hn.
    split; [auto|].
    repeat split; try discriminate; try (intros [? ?]; discriminate); auto.
  - rewrite He, Ho, Hc, Hs. simpl.
    apply Z.leb_le in Hn. rewrite Hn.
    split; [auto|].
    repeat split; try discriminate; try (intros [? ?]; discriminate); auto.
Qed.

Lemma process_video_outcome_witness :
  process_video config_auto (video_of frames_two_points) 175 true 12
    = Return (set_processing_time
                {| status := "INVALID"; distance_cm := None; distance_m := None;
                   calibration_scale := None; trajectory_points := 2;
                   processing_time_ms := 0%float;
                   error_message := Some not_enough |} 12)
  /\ ("INVALID"%string = "INVALID"%string <->
      true && true && cancel_free true frames_two_points = true
      /\ (3 <=? len (observations frames_two_points)) = false).
Proof.
  split; [reflexivity|].
  apply (process_video_outcome config_auto (video_of frames_two_points) 175 true 12
           (set_processing_time
                {| status := "INVALID"; distance_cm := None; distance_m := None;
                   calibration_scale := None; trajectory_points := 2;
                   processing_time_ms := 0%float;
                   error_message := Some not_enough |} 12)
           eq_refl).
Defined.

(** Property X2.  The optional fields of a result follow its status.  The two
    distances and the calibration scale are present together, exactly in a
    [VALID] result; an error message is present exactly in an [INVALID] or
    [ERROR] result; the point count of an [ERROR] or [CANCELLED] result is 0;
    the processing time is the elapsed time except in an [ERROR] result,
    which is returned before the time is taken and keeps 0. *)
Theorem result_fields_follow_status config video h sp elapsed r :
  process_video config video h sp elapsed = Return r ->
  (status r = "VALID"%string <-> distance_cm r <> None)
  /\ (status r = "VALID"%string <-> distance_m r <> None)
  /\ (status r = "VALID"%string <-> calibration_scale r <> None)
  /\ (status r = "INVALID"%string \/ status r = "ERROR"%string <->
      error_message r <> None)
  /\ (status r = "ERROR"%string \/ status r = "CANCELLED"%string ->
      trajectory_points r = 0)
  /\ processing_time_ms r
     = (if String.eqb (status r) "ERROR" then 0%float else elapsed).
Proof.
  intros H.
  destruct (process_video_cases _ _ _ _ _ _ H)
    as [(Hs & _ & Hr & Hm)
       |[(_ & _ & _ & ->)
        |[(_ & _ & _ & Hn & Hs & r0 & Ha & ->)|(_ & _ & _ & Hn & Hs & r0 & Ha & ->)]]].
  - rewrite Hr in *. simpl in *.
    repeat split; try discriminate; try congruence; auto.
    all: try (intros [? | ?]; discriminate).
  - simpl.
    repeat split; try discriminate; try congruence; auto.
    all: try (intros [? | ?]; discriminate).
  - unfold analyse in Ha. apply Z.ltb_lt in Hn.
    change (all_balls (state_after h (initial_state config) (frames video)))
      with (observations (frames video)) in Ha.
    rewrite Hn in Ha. injection Ha as <-. simpl.
    repeat split; try discriminate; try congruence; auto.
    all: try (intros [? | ?]; discriminate).
  - rewrite analyse_enough in Ha by exact Hn.
    destruct (resolved_origin _ _ _) as [o traj]. cbv zeta in Ha.
    destruct (landing_index traj) as [i|e]; simpl in Ha; [|discriminate].
    destruct (int_to_float _) as [d|e]; simpl in Ha; [|discriminate].
    injection Ha as <-. simpl.
    repeat split; try discriminate; try congruence; auto.
    all: try (intros [? | ?]; discriminate).
Qed.

Lemma result_fields_follow_status_witness :
  let r := set_processing_time (valid_result 100 0.5 3) 12 in
  process_video config_auto (video_of frames_scenario) 175 true 12 = Return r
  /\ (status r = "VALID"%string <-> distance_cm r <> None)
  /\ processing_time_ms r = 12%float.
Proof.
  intros r. split; [reflexivity|].
  destruct (result_fields_follow_status config_auto (video_of frames_scenario)
              175 true 12 r eq_refl) as (H1 & _ & _ & _ & _ & H6).
  split; [exact H1|exact H6].
Defined.

(* ================================================================== *)
(** * Point counts and end points *)
(* ================================================================== *)

Lemma find_origin_len hint balls :
  len (snd (find_origin hint balls)) <= len balls.
Proof.
  destruct (find_origin_trajectory hint balls) as [-> | ->]; [lia|].
  apply filter_length_le.
Qed.

(** Property X3.  The reported point count never exceeds the number of
    detections collected, which never exceeds the number of frames; it is at
    least 3 exactly in a [VALID] result. *)
Theorem point_count_bounds config video h sp elapsed r :
  process_video config video h sp elapsed = Return r ->
  0 <= trajectory_points r <= len (observations (frames video))
  /\ len (observations (frames video)) <= len (frames video)
  /\ (3 <= trajectory_points r <-> status r = "VALID"%string).
Proof.
  intros H.
  pose proof (len_observations_from 0 (frames video)) as Hobs.
  fold (observations (frames video)) in Hobs.
  assert (H0 : 0 <= len (observations (frames video))) by (unfold len; lia).
  split; [|split; [exact Hobs|]].
  - destruct (process_video_cases _ _ _ _ _ _ H)
      as [(_ & _ & Hr & _)
         |[(_ & _ & _ & ->)
          |[(_ & _ & _ & Hn & _ & r0 & Ha & ->)|(_ & _ & _ & Hn & _ & r0 & Ha & ->)]]].
    + rewrite Hr. simpl. lia.
    + simpl. lia.
    + unfold analyse in Ha. apply Z.ltb_lt in Hn.
      change (all_balls (state_after h (initial_state config) (frames video)))
        with (observations (frames video)) in Ha.
      rewrite Hn in Ha. injection Ha as <-. simpl. lia.
    + rewrite analyse_enough in Ha by exact Hn.
      unfold resolved_origin in Ha. cbv zeta in Ha.
      destruct (landing_index _) as [i|e]; simpl in Ha; [|discriminate].
      destruct (int_to_float _) as [d|e]; simpl in Ha; [|discriminate].
      injection Ha as <-. simpl.
      pose proof (find_origin_len
                    (person_x_hint (state_after h (initial_state config) (frames video)))
                    (observations (frames video))) as Hle.
      change (all_balls (state_after h (initial_state config) (frames video)))
        with (observations (frames video)).
      split; [unfold len; lia|exact Hle].
  - destruct (process_video_cases _ _ _ _ _ _ H)
      as [(Hs & _ & Hr & _)
         |[(_ & _ & _ & ->)
          |[(_ & _ & _ & Hn & Hs & r0 & Ha & ->)|(_ & _ & _ & Hn & Hs & r0 & Ha & ->)]]].
    + rewrite Hs, Hr. simpl. split; [lia|discriminate].
    + simpl. split; [lia|discriminate].
    + simpl in Hs. simpl. rewrite Hs.
      unfold analyse in Ha. pose proof Hn as Hn'. apply Z.ltb_lt in Hn.
      change (all_balls (state_after h (initial_state config) (frames video)))
        with (observations (frames video)) in Ha.
      rewrite Hn in Ha. injection Ha as <-. simpl.
      split; [lia|discriminate].
    + simpl in Hs. simpl. rewrite Hs. split; [reflexivity|intros _].
      rewrite analyse_enough in Ha by exact Hn.
      unfold resolved_origin in Ha. cbv zeta in Ha.
      destruct (landing_index _) as [i|e]; simpl in Ha; [|discriminate].
      destruct (int_to_float _) as [d|e]; simpl in Ha; [|discriminate].
      injection Ha as <-. simpl.
      apply (find_origin_sub _ _ Hn).
Qed.

Lemma point_count_bounds_witness :
  let r := set_processing_time (valid_result 100 0.5 3) 12 in
  process_video config_auto (video_of frames_static) 175 true 12 = Return r
  /\ 0 <= trajectory_points r <= len (observations frames_static)
  /\ (3 <= trajectory_points r <-> status r = "VALID"%string).
Proof.
  intros r. split; [reflexivity|].
  destruct (point_count_bounds config_auto (video_of frames_static)
              175 true 12 r eq_refl) as (H1 & _ & H3).
  split; [exact H1|exact H3].
Defined.

(** Property X4.  Unless a manual origin (other than 0) is configured, the
    reported distance is measured between two detections of the video: the
    origin and the landing point are both x coordinates of collected points,
    and [distance_cm] is the rounded product of their pixel distance and the
    scale of the run. *)
Theorem distance_between_two_detections config video h sp elapsed r :
  process_video config video h sp elapsed = Return r ->
  status r = "VALID"%string ->
  manual_origin_x config = None \/ manual_origin_x config = Some 0 ->
  exists origin landing d,
    In origin (observations (frames video))
    /\ In landing (observations (frames video))
    /\ (forall b, In b (snd (find_origin (first_person_x (frames video))
                               (observations (frames video)))) ->
                  ball_y b <= ball_y landing)
    /\ int_to_float (Z.abs (ball_x landing - ball_x origin)) = Return d
    /\ distance_cm r = Some (py_round (d * run_scale config h (frames video)) 2).
Proof.
  intros H Hs Hm.
  destruct (valid_run_inv _ _ _ _ _ _ H Hs) as (i & d & Hi & Hd & ->).
  destruct (process_video_valid _ _ _ _ _ _ H Hs) as (_ & Hn & _).
  destruct (find_origin_sub (first_person_x (frames video)) _ Hn)
    as (Hincl & Hlen & o & Ho & Hox).
  unfold resolved_origin in Hi, Hd. simpl fst in Hd. simpl snd in Hi, Hd.
  set (traj := snd (find_origin _ _)) in *.
  assert (Hne : traj <> []).
  { intros E. rewrite E in Hlen. unfold len in Hlen. simpl in Hlen. lia. }
  destruct (landing_index_first_max traj Hne) as (i' & Hi' & _ & Hin & Hmax & _).
  rewrite Hi in Hi'. injection Hi' as <-.
  assert (Hov : override_origin config
                  (fst (find_origin (first_person_x (frames video))
                          (observations (frames video)))) = ball_x o).
  { unfold override_origin. destruct Hm as [-> | ->]; simpl; exact Hox. }
  rewrite Hov in Hd.
  exists o, (ball_at traj i), d.
  split; [exact Ho|]. split; [apply Hincl, Hin|]. split; [|split; [exact Hd|reflexivity]].
  intros b Hb. apply In_nth with (d := (0, 0, 0)) in Hb as (j & Hj & <-).
  apply Hmax, Hj.
Qed.

Lemma distance_between_two_detections_witness :
  exists origin landing d,
    In origin (observations frames_static)
    /\ In landing (observations frames_static)
    /\ (forall b, In b (snd (find_origin (first_person_x frames_static)
                               (observations frames_static))) ->
                  ball_y b <= ball_y landing)
    /\ int_to_float (Z.abs (ball_x landing - ball_x origin)) = Return d
    /\ Some 100%float
       = Some (py_round (d * run_scale config_auto 175 frames_static) 2).
Proof.
  apply (distance_between_two_detections config_auto (video_of frames_static)
           175 true 12 (set_processing_time (valid_result 100 0.5 3) 12)
           eq_refl eq_refl (or_introl eq_refl)).
Defined.

(* ================================================================== *)
(** * Exceptions *)
(* ================================================================== *)





(* ================================================================== *)
(** * The preview *)
(* ================================================================== *)







(* ================================================================== *)
(** * The person hint *)
(* ================================================================== *)

Lemma first_person_x_split fs px :
  first_person_x fs = Some px <->
  exists pre f post ph,
    fs = pre ++ f :: post
    /\ Forall (fun g => pose_result g = None) pre
    /\ pose_result f = Some (px, ph).
Proof.
  split.
  - induction fs as [|g fs IH]; simpl; [discriminate|].
    destruct (pose_result g) as [[x ph]|] eqn:E.
    + intros H. injection H as <-. exists [], g, fs, ph. auto.
    + intros H. destruct (IH H) as (pre & f & post & ph & -> & Hpre & Hf).
      exists (g :: pre), f, post, ph. auto.
  - intros (pre & f & post & ph & -> & Hpre & Hf).
    induction Hpre as [|g pre Hg _ IH]; simpl.
    + rewrite Hf. reflexivity.
    + rewrite Hg. exact IH.
Qed.

Lemma first_person_x_none fs :
  first_person_x fs = None <-> Forall (fun g => pose_result g = None) fs.
Proof.
  induction fs as [|g fs IH]; simpl.
  - split; auto.
  - destruct (pose_result g) as [[x ph]|] eqn:E.
    + split; [discriminate|]. intros H. inversion H; congruence.
    + rewrite IH. split; [intros H; constructor; assumption|].
      intros H. inversion H; assumption.
Qed.

(** Property X8.  The person hint the loop ends with is the x of the first frame
    on which the pose estimator reports a person, whatever height that frame
    gives and whether or not a scale is configured; frames before it report
    nobody, later person signals never change it, and there is no hint
    exactly when no frame reports a person. *)
Theorem hint_is_first_person_signal config h sp fs st :
  run_frames h sp fs (initial_state config) = Finished st ->
  (forall px,
     person_x_hint st = Some px <->
     exists pre f post ph,
       fs = pre ++ f :: post
       /\ Forall (fun g => pose_result g = None) pre
       /\ pose_result f = Some (px, ph))
  /\ (person_x_hint st = None <-> Forall (fun g => pose_result g = None) fs).
Proof.
  rewrite run_frames_cases.
  destruct (cancel_free sp fs); [|discriminate].
  intros H. injection H as <-. simpl person_x_hint.
  split; [intros px; apply first_person_x_split|apply first_person_x_none].
Qed.

Lemma hint_is_first_person_signal_witness :
  (Some 400 = Some 400 <->
   exists pre f post ph,
     frames_pose = pre ++ f :: post
     /\ Forall (fun g => pose_result g = None) pre
     /\ pose_result f = Some (400, ph))
  /\ (Some 400 = None <-> Forall (fun g => pose_result g = None) frames_pose).
Proof.
  destruct (hint_is_first_person_signal (config_scale 0.5) 175 true frames_pose
              {| scale := Some 0.5%float; all_balls := [];
                 person_x_hint := Some 400; frame_count := 4 |} eq_refl)
    as [H1 H2].
  split; [exact (H1 400)|exact H2].
Defined.

(* ================================================================== *)
(** * The movement scan on a growing trajectory *)
(* ================================================================== *)

Lemma ball_at_app balls more j :
  (j < length balls)%nat -> ball_at (balls ++ more) j = ball_at balls j.
Proof. intros H. unfold ball_at. apply app_nth1, H. Qed.

Lemma moved_app threshold balls more j :
  (j + 2 < length balls)%nat ->
  moved threshold (balls ++ more) j = moved threshold balls j.
Proof.
  intros H. unfold moved. rewrite !ball_at_app by lia. reflexivity.
Qed.

Lemma scan_onset_first threshold balls n i :
  (i < n)%nat ->
  moved threshold balls i = true ->
  (forall j, (j < i)%nat -> moved threshold balls j = false) ->
  scan_onset threshold balls (seq 0 n) = Some i.
Proof.
  intros Hi Hm Hbefore.
  pose proof (scan_onset_seq threshold balls n 0) as H.
  destruct (scan_onset threshold balls (seq 0 n)) as [k|].
  - destruct H as (Hk & Hmk & Hbk). f_equal.
    destruct (Nat.lt_trichotomy k i) as [Hlt|[Heq|Hgt]]; [|exact Heq|].
    + rewrite (Hbefore k Hlt) in Hmk. discriminate.
    + rewrite (Hbk i) in Hm by lia. discriminate.
  - rewrite (H i) in Hm by lia. discriminate.
Qed.

(** An onset found on a trajectory is found again, at the same index, on
    every extension of the trajectory. *)
Lemma scan_onset_app threshold balls more i :
  scan_onset threshold balls (scan_range balls) = Some i ->
  scan_onset threshold (balls ++ more) (scan_range (balls ++ more)) = Some i
  /\ x_before (balls ++ more) i = x_before balls i.
Proof.
  intros H. unfold scan_range in *.
  pose proof (scan_onset_seq threshold balls (length balls - 3) 0) as Hs.
  rewrite H in Hs. destruct Hs as (Hi & Hm & Hbefore).
  split.
  - apply scan_onset_first.
    + rewrite length_app. lia.
    + rewrite moved_app by lia. exact Hm.
    + intros j Hj. rewrite moved_app by lia. apply Hbefore. lia.
  - rewrite !x_before_pred. rewrite ball_at_app by lia. reflexivity.
Qed.

(** Property X9.  The movement scan is stable under later detections.  Once the
    scan finds the onset of the throw at an index, every longer trajectory
    with the same beginning gives the same onset and the same origin: the
    origin marker of the preview (threshold 15) stays where it is on all
    later frames, and the origin of the final scan (threshold 20) does not
    depend on the detections that follow. *)
Theorem movement_onset_stable balls more :
  (forall i, scan_onset 15 balls (scan_range balls) = Some i ->
             5 <= len balls ->
             display_origin (balls ++ more) = display_origin balls)
  /\ (forall i o o', scan_onset 20 balls (scan_range balls) = Some i ->
                     movement_start (balls ++ more) o' = movement_start balls o).
Proof.
  split.
  - intros i H Hlen. unfold display_origin.
    destruct (scan_onset_app 15 balls more i H) as [H' Hx].
    rewrite H, H', Hx.
    assert (Hlen' : 5 <= len (balls ++ more)).
    { unfold len in *. rewrite length_app. lia. }
    apply Z.leb_le in Hlen, Hlen'. rewrite Hlen, Hlen'. reflexivity.
  - intros i o o' H. unfold movement_start.
    destruct (scan_onset_app 20 balls more i H) as [H' Hx].
    rewrite H, H', Hx. reflexivity.
Qed.

Lemma movement_onset_stable_witness :
  display_origin (balls_static ++ [(600, 50, 7)]) = display_origin balls_static
  /\ movement_start (balls_static ++ [(600, 50, 7)]) 0 = movement_start balls_static 10.
Proof.
  destruct (movement_onset_stable balls_static [(600, 50, 7)]) as [H1 H2].
  split.
  - apply (H1 1%nat); [reflexivity|]. unfold len. simpl. lia.
  - apply (H2 1%nat). reflexivity.
Defined.

(* ================================================================== *)
(** * The scale and the origin without overrides *)
(* ================================================================== *)

(** Property X10.  Without a manual scale the calibration scale of a result lies
    in [[0.2, 1.5]]: it is a derived scale that passed that test, or the
    default 0.5. *)
Theorem automatic_scale_in_range config video h sp elapsed r s :
  process_video config video h sp elapsed = Return r ->
  manual_scale_cm_per_px config = None ->
  calibration_scale r = Some s ->
  plausible_scale s = true
  /\ (s = f0_5 \/ first_derived_scale h (frames video) = Some s).
Proof.
  intros H Hm Hs.
  destruct (process_video_cases _ _ _ _ _ _ H)
    as [(_ & _ & Hr & _)
       |[(_ & _ & _ & ->)
        |[(_ & _ & _ & Hn & _ & r0 & Ha & ->)|(_ & _ & _ & Hn & Hst & _)]]].
  - rewrite Hr in Hs. discriminate.
  - discriminate.
  - unfold analyse in Ha. apply Z.ltb_lt in Hn.
    change (all_balls (state_after h (initial_state config) (frames video)))
      with (observations (frames video)) in Ha.
    rewrite Hn in Ha. injection Ha as <-. discriminate.
  - destruct (valid_run_inv _ _ _ _ _ _ H Hst) as (i & d & _ & _ & ->).
    simpl in Hs. injection Hs as <-.
    unfold run_scale. rewrite Hm.
    destruct (first_derived_scale h (frames video)) as [c|] eqn:E; simpl.
    + split; [apply (first_derived_scale_plausible _ _ _ E)|auto].
    + split; [reflexivity|auto].
Qed.

Lemma automatic_scale_in_range_witness :
  let s := (175 / 360)%float in
  process_video config_auto (video_of frames_raw_scenario) 175 true 12
    = Return (set_processing_time (valid_result (200 * s) s 3) 12)
  /\ plausible_scale s = true
  /\ (s = f0_5 \/ first_derived_scale 175 frames_raw_scenario = Some s).
Proof.
  intros s. split; [reflexivity|].
  apply (automatic_scale_in_range config_auto (video_of frames_raw_scenario) 175 true 12
           (set_processing_time (valid_result (200 * s) s 3) 12) s
           eq_refl eq_refl eq_refl).
Defined.

(** Property X11.  When no frame reports a person and no manual origin (other
    than 0) is configured, the origin is the first detection and nothing is
    filtered: the point count is the number of detections and the distance is
    measured from the x of the first detection to the x of the first lowest
    detection. *)
Theorem no_person_origin_is_first_detection config video h sp elapsed r :
  process_video config video h sp elapsed = Return r ->
  status r = "VALID"%string ->
  Forall (fun f => pose_result f = None) (frames video) ->
  manual_origin_x config = None \/ manual_origin_x config = Some 0 ->
  let balls := observations (frames video) in
  trajectory_points r = len balls
  /\ exists i d,
       landing_index balls = Return i
       /\ int_to_float (Z.abs (ball_x (ball_at balls i) - ball_x (ball_at balls 0)))
          = Return d
       /\ distance_cm r = Some (py_round (d * run_scale config h (frames video)) 2).
Proof.
  intros H Hs Hnone Hm balls.
  destruct (valid_run_inv _ _ _ _ _ _ H Hs) as (i & d & Hi & Hd & ->).
  apply first_person_x_none in Hnone.
  unfold resolved_origin in Hi, Hd. rewrite Hnone in Hi, Hd.
  simpl in Hi, Hd.
  assert (Hov : override_origin config (ball_x (ball_at balls 0)) = ball_x (ball_at balls 0)).
  { unfold override_origin. destruct Hm as [-> | ->]; reflexivity. }
  fold balls in Hi, Hd. rewrite Hov in Hd.
  unfold resolved_origin. rewrite Hnone. simpl.
  split; [reflexivity|]. exists i, d. auto.
Qed.

Lemma no_person_origin_is_first_detection_witness :
  trajectory_points (set_processing_time (valid_result 0 0.5 6) 12)
    = len (observations frames_static_unseen)
  /\ exists i d,
       landing_index (observations frames_static_unseen) = Return i
       /\ int_to_float
            (Z.abs (ball_x (ball_at (observations frames_static_unseen) i)
                    - ball_x (ball_at (observations frames_static_unseen) 0)))
          = Return d
       /\ distance_cm (set_processing_time (valid_result 0 0.5 6) 12)
          = Some (py_round (d * run_scale config_auto 175 frames_static_unseen) 2).
Proof.
  apply (no_person_origin_is_first_detection config_auto (video_of frames_static_unseen)
           175 true 12 (set_processing_time (valid_result 0 0.5 6) 12)
           eq_refl eq_refl).
  - repeat constructor.
  - left. reflexivity.
Defined.

(* ================================================================== *)
(** * What the result depends on *)
(* ================================================================== *)


Lemma unnumbered_y b : ball_y (unnumbered b) = ball_y b.
Proof. reflexivity. Qed.

















(* ================================================================== *)
(** * The loop on raw frames *)
(* ================================================================== *)

(** The pose block ignores the frame's person signal once the scale and the
    hint are both known. *)
Lemma frame_step_pose_unused h sp st f p :
  is_none (scale st) || is_none (person_x_hint st) = false ->
  frame_step h sp st {| pose_result := p; ball_pos := ball_pos f; wait_key := wait_key f |}
  = frame_step h sp st f.
Proof.
  intros H. unfold frame_step, update_pose, quit_pressed. simpl. rewrite H.
  reflexivity.
Qed.

Lemma frame_step_raw_observed c h sp st rf f :
  observed_as c rf f ->
  frame_step_raw c h sp st rf = Return (frame_step h sp st f).
Proof.
  intros (Hp & Hb & Hk). unfold frame_step_raw. rewrite Hb, Hk.
  destruct (is_none (scale st) || is_none (person_x_hint st)) eqn:E.
  - rewrite Hp. simpl. destruct f; reflexivity.
  - simpl. f_equal. apply frame_step_pose_unused, E.
Qed.

Lemma run_raw_frames_observed c h sp rfs fs :
  Forall2 (observed_as c) rfs fs ->
  forall st, run_raw_frames c h sp rfs st = Return (run_frames h sp fs st).
Proof.
  induction 1 as [|rf f rfs fs Hobs _ IH]; intros st; simpl; [reflexivity|].
  rewrite (frame_step_raw_observed _ _ _ _ _ _ Hobs). simpl.
  destruct (frame_step h sp st f); [apply IH|reflexivity].
Qed.

(** Property X13.  The loop that calls [get_person_x] and [detect] itself, frame
    by frame, computes what [_process] computes from the two detectors'
    answers: when on every raw frame the detectors return the frame's person
    signal and ball position, [_process] on the raw frames equals [_process]
    on those answers.  The pose estimator is consulted only while the scale
    or the hint is missing; that it is skipped afterwards changes nothing. *)
Theorem raw_loop_refines_frames c rfs fs h sp :
  Forall2 (observed_as c) rfs fs ->
  _process_raw c rfs h sp = _process (overrides c) fs h sp.
Proof.
  intros H. unfold _process_raw, _process.
  rewrite (run_raw_frames_observed _ _ _ _ _ H). simpl.
  destruct (run_frames h sp fs (initial_state (overrides c))); reflexivity.
Qed.

Lemma raw_loop_refines_frames_witness :
  Forall2 (observed_as default_config) raw_scenario frames_raw_scenario
  /\ _process_raw default_config raw_scenario 175 true
     = _process (overrides default_config) frames_raw_scenario 175 true.
Proof.
  assert (H : Forall2 (observed_as default_config) raw_scenario frames_raw_scenario)
    by (repeat constructor).
  split; [exact H|].
  apply (raw_loop_refines_frames default_config raw_scenario frames_raw_scenario
           175 true H).
Defined.

(* ================================================================== *)
(** * Order of binary64 numbers *)
(* ================================================================== *)

(** [c <= b < a] gives [c < a] for a [c] that is not NaN. *)
Lemma SFltb_le_lt_trans c b a :
  c <> S754_nan ->
  SFltb b c = false -> SFltb b a = true -> SFltb c a = true.
Proof.
  unfold SFltb, SFcompare.
  destruct c as [sc|sc| |sc mc ec], b as [sb|sb| |sb mb eb], a as [sa|sa| |sa ma ea];
    try congruence; intros _;
    try destruct sc; try destruct sb; try destruct sa; try congruence; try reflexivity.
  all: change (PosDef.Pos.compare_cont Eq ?x ?y) with (Pos.compare x y).
  all: repeat match goal with
       | |- context [Z.compare ?x ?y] => destruct (Z.compare_spec x y)
       | |- context [Pos.compare ?x ?y] => destruct (Pos.compare_spec x y)
       end; simpl; try congruence; try lia.
Qed.

Lemma SFltb_asym a b : SFltb a b = true -> SFltb b a = false.
Proof.
  unfold SFltb, SFcompare.
  destruct a as [sa|sa| |sa ma ea], b as [sb|sb| |sb mb eb];
    try congruence;
    try destruct sa; try destruct sb; try congruence; try reflexivity.
  all: change (PosDef.Pos.compare_cont Eq ?x ?y) with (Pos.compare x y).
  all: repeat match goal with
       | |- context [Z.compare ?x ?y] => destruct (Z.compare_spec x y)
       | |- context [Pos.compare ?x ?y] => destruct (Pos.compare_spec x y)
       end; simpl; try congruence; try lia.
Qed.

Lemma SFltb_not_nan_r a b : SFltb a b = true -> b <> S754_nan.
Proof. intros H ->. destruct a; discriminate. Qed.

Lemma ltb_le_lt_trans c b a :
  is_nan c = false ->
  (b <? c)%float = false -> (b <? a)%float = true -> (c <? a)%float = true.
Proof.
  rewrite is_nan_spec, !ltb_spec. intros Hn.
  apply SFltb_le_lt_trans. intros E. rewrite E in Hn. discriminate.
Qed.

Lemma ltb_asym a b : (a <? b)%float = true -> (b <? a)%float = false.
Proof. rewrite !ltb_spec. apply SFltb_asym. Qed.

Lemma ltb_not_nan_r a b : (a <? b)%float = true -> is_nan b = false.
Proof.
  rewrite ltb_spec, is_nan_spec. intros H.
  pose proof (SFltb_not_nan_r _ _ H). destruct (Prim2SF b); congruence.
Qed.

Lemma ltb_trans a b c :
  (a <? b)%float = true -> (b <? c)%float = true -> (a <? c)%float = true.
Proof.
  intros Hab Hbc.
  destruct (is_nan a) eqn:Ha.
  - rewrite ltb_spec in Hab. rewrite is_nan_spec in Ha.
    destruct (Prim2SF a); try discriminate.
  - apply (ltb_le_lt_trans a b c Ha); [apply ltb_asym, Hab|exact Hbc].
Qed.

Lemma float_gt_int_not_nan x n : float_gt_int x n = true -> is_nan x = false.
Proof.
  unfold float_gt_int. rewrite is_nan_spec.
  destruct (Prim2SF x); congruence.
Qed.

(* ================================================================== *)
(** * [BallDetector.detect] *)
(* ================================================================== *)

(** What the loop over the contours returns, from any state: the state's
    contour when no contour passes the tests, and otherwise a contour that
    passes them, is larger than every earlier contour above the minimum and
    not smaller than any later one. *)
Lemma best_contour_from_spec min_area cs : forall best best_area,
  (best_contour_from min_area cs best best_area = best
   /\ forall c, In c cs -> float_gt_int (area c) min_area = true ->
                (best_area <? area c)%float = false)
  \/ exists pre b post,
       cs = pre ++ b :: post
       /\ best_contour_from min_area cs best best_area = Some b
       /\ float_gt_int (area b) min_area = true
       /\ (best_area <? area b)%float = true
       /\ (forall c, In c pre -> float_gt_int (area c) min_area = true ->
                     (area c <? area b)%float = true)
       /\ (forall c, In c post -> float_gt_int (area c) min_area = true ->
                     (area b <? area c)%float = false).
Proof.
  induction cs as [|c cs IH]; intros best ba; simpl.
  - left. split; [reflexivity|]. intros c [].
  - destruct (float_gt_int (area c) min_area) eqn:Hgt; simpl.
    + destruct (ba <? area c)%float eqn:Hlt.
      * right.
        destruct (IH (Some c) (area c))
          as [[E Hall]|(pre & b & post & E & R & Hb & Hlb & Hpre & Hpost)].
        -- exists [], c, cs.
           split; [reflexivity|]. split; [exact E|]. split; [exact Hgt|].
           split; [exact Hlt|]. split; [intros x []|exact Hall].
        -- exists (c :: pre), b, post.
           split; [simpl; f_equal; exact E|]. split; [exact R|].
           split; [exact Hb|]. split; [eapply ltb_trans; eauto|].
           split; [|exact Hpost].
           intros x [Hx|Hx] Hx'; [rewrite <- Hx; exact Hlb|auto].
      * destruct (IH best ba)
          as [[E Hall]|(pre & b & post & E & R & Hb & Hlb & Hpre & Hpost)].
        -- left. split; [exact E|].
           intros x [Hx|Hx] Hx'; [rewrite <- Hx; exact Hlt|auto].
        -- right. exists (c :: pre), b, post.
           split; [simpl; f_equal; exact E|]. split; [exact R|].
           split; [exact Hb|]. split; [exact Hlb|]. split; [|exact Hpost].
           intros x [Hx|Hx] Hx'; [|auto]. rewrite <- Hx.
           apply (ltb_le_lt_trans _ ba); auto.
           apply float_gt_int_not_nan with min_area, Hgt.
    + destruct (IH best ba)
        as [[E Hall]|(pre & b & post & E & R & Hb & Hlb & Hpre & Hpost)].
      * left. split; [exact E|].
        intros x [Hx|Hx] Hx'; [rewrite <- Hx in Hx'; congruence|auto].
      * right. exists (c :: pre), b, post.
        split; [simpl; f_equal; exact E|]. split; [exact R|].
        split; [exact Hb|]. split; [exact Hlb|]. split; [|exact Hpost].
        intros x [Hx|Hx] Hx'; [rewrite <- Hx in Hx'; congruence|auto].
Qed.

Lemma best_contour_spec min_area cs :
  (best_contour min_area cs = None
   /\ forall c, In c cs -> qualifies min_area c = false)
  \/ exists b, best_contour min_area cs = Some b /\ first_largest min_area cs b.
Proof.
  unfold best_contour.
  destruct (best_contour_from_spec min_area cs None 0%float)
    as [[E Hall]|(pre & b & post & E & R & Hb & Hlb & Hpre & Hpost)].
  - left. split; [exact E|]. intros c Hc. unfold qualifies.
    destruct (float_gt_int (area c) min_area) eqn:Hgt; [|reflexivity].
    rewrite (Hall c Hc Hgt). reflexivity.
  - right. exists b. split; [exact R|]. exists pre, post.
    split; [exact E|]. split; [|split; assumption].
    unfold qualifies. rewrite Hb, Hlb. reflexivity.
Qed.

Lemma app_eq_length_inv {A : Type} (l1 l2 r1 r2 : list A) :
  length l1 = length l2 -> l1 ++ r1 = l2 ++ r2 -> l1 = l2 /\ r1 = r2.
Proof.
  revert l2. induction l1 as [|a l1 IH]; intros [|a' l2] Hlen H;
    simpl in *; try discriminate.
  - auto.
  - injection H as -> H. injection Hlen as Hlen.
    destruct (IH _ Hlen H) as [-> ->]. auto.
Qed.

(** The first largest contour is unique. *)
Lemma first_largest_unique min_area cs b b' :
  first_largest min_area cs b -> first_largest min_area cs b' -> b = b'.
Proof.
  intros (pre & post & E & Hq & Hpre & Hpost) (pre' & post' & E' & Hq' & Hpre' & Hpost').
  unfold qualifies in Hq, Hq'.
  apply andb_true_iff in Hq as [Hg _]. apply andb_true_iff in Hq' as [Hg' _].
  assert (Hlen : length pre = length pre').
  { destruct (Nat.lt_trichotomy (length pre) (length pre')) as [H|[H|H]]; [|exact H|].
    - (* b lies in pre' *)
      assert (Hin : In b pre').
      { assert (nth_error (pre' ++ b' :: post') (length pre) = Some b).
        { rewrite <- E', E, nth_error_app2, Nat.sub_diag by lia. reflexivity. }
        rewrite nth_error_app1 in H0 by lia. eapply nth_error_In, H0. }
      assert (Hin' : In b' post).
      { assert (nth_error (pre ++ b :: post) (length pre') = Some b').
        { rewrite <- E, E', nth_error_app2, Nat.sub_diag by lia. reflexivity. }
        rewrite nth_error_app2 in H0 by lia.
        destruct (length pre' - length pre)%nat eqn:D; [lia|].
        simpl in H0. eapply nth_error_In, H0. }
      pose proof (Hpre' b Hin Hg). pose proof (Hpost b' Hin' Hg'). congruence.
    - assert (Hin : In b' pre).
      { assert (nth_error (pre ++ b :: post) (length pre') = Some b').
        { rewrite <- E, E', nth_error_app2, Nat.sub_diag by lia. reflexivity. }
        rewrite nth_error_app1 in H0 by lia. eapply nth_error_In, H0. }
      assert (Hin' : In b post').
      { assert (nth_error (pre' ++ b' :: post') (length pre) = Some b).
        { rewrite <- E', E, nth_error_app2, Nat.sub_diag by lia. reflexivity. }
        rewrite nth_error_app2 in H0 by lia.
        destruct (length pre - length pre')%nat eqn:D; [lia|].
        simpl in H0. eapply nth_error_In, H0. }
      pose proof (Hpre b' Hin Hg'). pose proof (Hpost' b Hin' Hg). congruence. }
  assert (Happ : pre ++ b :: post = pre' ++ b' :: post') by congruence.
  destruct (app_eq_length_inv _ _ _ _ Hlen Happ) as [-> Htl].
  injection Htl as -> ->. reflexivity.
Qed.

(** Property X14.  [detect] returns the centroid [(int(m10/m00), int(m01/m00))] of
    the first contour of the largest area among the contours whose area
    exceeds both [min_ball_area] and 0; the contour has [m00 != 0]. *)
Theorem detect_returns_largest_contour c cs cx cy :
  detect c cs = Return (Some (cx, cy)) ->
  exists b,
    first_largest (min_ball_area c) cs b
    /\ (forall b', first_largest (min_ball_area c) cs b' -> b' = b)
    /\ (m00 b =? 0)%float = false
    /\ float_to_int (m10 b / m00 b)%float = Return cx
    /\ float_to_int (m01 b / m00 b)%float = Return cy.
Proof.
  unfold detect. intros H.
  destruct (best_contour_spec (min_ball_area c) cs) as [[E _]|(b & E & Hb)];
    rewrite E in H; [discriminate|].
  destruct (m00 b =? 0)%float eqn:E0; [discriminate|].
  destruct (float_to_int (m10 b / m00 b)%float) as [x|e] eqn:Ex; simpl in H; [|discriminate].
  destruct (float_to_int (m01 b / m00 b)%float) as [y|e] eqn:Ey; simpl in H; [|discriminate].
  injection H as -> ->.
  exists b. split; [exact Hb|]. split; [|auto].
  intros b' Hb'. apply (first_largest_unique _ _ _ _ Hb' Hb).
Qed.

Lemma detect_returns_largest_contour_witness :
  detect (detector default_config) contours_ball = Return (Some (100, 50))
  /\ exists b,
       first_largest 15 contours_ball b
       /\ (forall b', first_largest 15 contours_ball b' -> b' = b)
       /\ (m00 b =? 0)%float = false
       /\ float_to_int (m10 b / m00 b)%float = Return 100
       /\ float_to_int (m01 b / m00 b)%float = Return 50.
Proof.
  split; [reflexivity|].
  apply (detect_returns_largest_contour (detector default_config) contours_ball
           100 50 eq_refl).
Defined.

(** Property X15.  [detect] returns [None] exactly in two cases: no contour has an
    area above both [min_ball_area] and 0 (an empty list, or only contours of
    an area at most the minimum, at most 0, or NaN), or the first largest
    contour has [m00 == 0]. *)
Theorem detect_none_iff c cs :
  detect c cs = Return None <->
  (forall k, In k cs -> qualifies (min_ball_area c) k = false)
  \/ exists b, first_largest (min_ball_area c) cs b /\ (m00 b =? 0)%float = true.
Proof.
  unfold detect.
  destruct (best_contour_spec (min_ball_area c) cs) as [[E Hall]|(b & E & Hb)];
    rewrite E.
  - split; [intros _; left; exact Hall|reflexivity].
  - split.
    + destruct (m00 b =? 0)%float eqn:E0; [intros _; right; eauto|].
      destruct (float_to_int (m10 b / m00 b)%float); simpl; [|discriminate].
      destruct (float_to_int (m01 b / m00 b)%float); simpl; discriminate.
    + intros [Hno|(b' & Hb' & E0)].
      * destruct Hb as (pre & post & Ecs & Hq & _).
        rewrite (Hno b) in Hq; [discriminate|]. rewrite Ecs. apply in_elt.
      * rewrite (first_largest_unique _ _ _ _ Hb Hb'), E0. reflexivity.
Qed.

Lemma detect_none_iff_witness :
  detect (detector default_config) contours_noise = Return None.
Proof.
  apply detect_none_iff. left.
  intros k [<-|[<-|[<-|[]]]]; reflexivity.
Defined.

(* ================================================================== *)
(** * [int()] of a float *)
(* ================================================================== *)

Lemma float_to_int_raises x e :
  float_to_int x = Raise e ->
  (is_nan x = true /\ e = ValueError) \/ (is_infinity x = true /\ e = OverflowError).
Proof.
  unfold float_to_int. rewrite is_nan_spec, is_infinity_spec.
  destruct (Prim2SF x); intros H; try discriminate; injection H as <-; auto.
Qed.

(** Property X16.  [detect] raises only from the [int()] of a centroid
    coordinate: the first largest contour has [m00 != 0] and one of the two
    quotients [m10/m00], [m01/m00] is NaN ([ValueError]) or infinite
    ([OverflowError]). *)
Theorem detect_raises_on_unbounded_centroid c cs e :
  detect c cs = Raise e ->
  exists b q,
    first_largest (min_ball_area c) cs b
    /\ (m00 b =? 0)%float = false
    /\ (q = (m10 b / m00 b)%float \/ q = (m01 b / m00 b)%float)
    /\ ((is_nan q = true /\ e = ValueError)
        \/ (is_infinity q = true /\ e = OverflowError)).
Proof.
  unfold detect. intros H.
  destruct (best_contour_spec (min_ball_area c) cs) as [[E _]|(b & E & Hb)];
    rewrite E in H; [discriminate|].
  destruct (m00 b =? 0)%float eqn:E0; [discriminate|].
  destruct (float_to_int (m10 b / m00 b)%float) as [x|e'] eqn:Ex; simpl in H.
  - destruct (float_to_int (m01 b / m00 b)%float) as [y|e''] eqn:Ey; simpl in H;
      [discriminate|].
    injection H as <-.
    exists b, (m01 b / m00 b)%float.
    split; [exact Hb|]. split; [exact E0|]. split; [auto|].
    apply float_to_int_raises, Ey.
  - injection H as <-.
    exists b, (m10 b / m00 b)%float.
    split; [exact Hb|]. split; [exact E0|]. split; [auto|].
    apply float_to_int_raises, Ex.
Qed.

Lemma detect_raises_on_unbounded_centroid_witness :
  detect (detector default_config) contours_unbounded = Raise OverflowError
  /\ exists b q,
       first_largest 15 contours_unbounded b
       /\ (m00 b =? 0)%float = false
       /\ (q = (m10 b / m00 b)%float \/ q = (m01 b / m00 b)%float)
       /\ ((is_nan q = true /\ OverflowError = ValueError)
           \/ (is_infinity q = true /\ OverflowError = OverflowError)).
Proof.
  split; [reflexivity|].
  apply (detect_raises_on_unbounded_centroid (detector default_config)
           contours_unbounded OverflowError eq_refl).
Defined.

(* ================================================================== *)
(** * [PoseEstimator.get_person_x] *)
(* ================================================================== *)

(** Property X17.  What [get_person_x] returns for detected landmarks.  It is
    [None] exactly when neither both hips nor both ankles are visible.  In a
    returned pair the x comes from the hips when both are visible and from
    the ankles otherwise, while the pixel height prefers the ankles: it is
    the nose-to-ankle distance when both ankles are visible and the
    nose-to-hip distance divided by 0.35 otherwise; the height is missing
    exactly when the nose is not visible. *)
Theorem get_person_x_shape c height width l r :
  get_person_x c height width (Some l) = Return r ->
  let vis := landmark_visibility_threshold c in
  (r = None <-> hips_visible vis l = false /\ ankles_visible vis l = false)
  /\ forall px ph, r = Some (px, ph) ->
       mid_x (if hips_visible vis l then left_hip l else left_ankle l)
             (if hips_visible vis l then right_hip l else right_ankle l) width
         = Return px
       /\ (ph = None <-> visible vis (nose l) = false)
       /\ forall p, ph = Some p ->
            exists h, int_to_float height = Return h
              /\ p = if ankles_visible vis l
                     then abs (mid_y (left_ankle l) (right_ankle l) h - lm_y (nose l) * h)
                     else (abs (mid_y (left_hip l) (right_hip l) h - lm_y (nose l) * h)
                           / f0_35)%float.
Proof.
  unfold get_person_x, person_x_of, pixel_height_of. cbv zeta.
  set (vis := landmark_visibility_threshold c).
  destruct (hips_visible vis l) eqn:Eh.
  - destruct (mid_x (left_hip l) (right_hip l) width) as [x|e]; simpl; [|discriminate].
    destruct (visible vis (nose l)).
    + destruct (int_to_float height) as [hf|e]; simpl; [|discriminate].
      destruct (ankles_visible vis l); simpl; intros H; injection H as <-.
      all: split; [split; [discriminate|intros [? ?]; discriminate]|].
      all: intros px ph E; injection E as <- <-.
      all: split; [reflexivity|]; split; [split; discriminate|].
      all: intros p E; injection E as <-; exists hf; auto.
    + simpl. intros H; injection H as <-.
      split; [split; [discriminate|intros [? ?]; discriminate]|].
      intros px ph E; injection E as <- <-.
      split; [reflexivity|]. split; [split; reflexivity|]. discriminate.
  - destruct (ankles_visible vis l) eqn:Ea.
    + destruct (mid_x (left_ankle l) (right_ankle l) width) as [x|e]; simpl; [|discriminate].
      destruct (visible vis (nose l)).
      * destruct (int_to_float height) as [hf|e]; simpl; [|discriminate].
        intros H; injection H as <-.
        split; [split; [discriminate|intros [? ?]; discriminate]|].
        intros px ph E; injection E as <- <-.
        split; [reflexivity|]. split; [split; discriminate|].
        intros p E; injection E as <-; exists hf; auto.
      * simpl. intros H; injection H as <-.
        split; [split; [discriminate|intros [? ?]; discriminate]|].
        intros px ph E; injection E as <- <-.
        split; [reflexivity|]. split; [split; reflexivity|]. discriminate.
    + simpl. intros H; injection H as <-.
      split; [split; auto|]. discriminate.
Qed.

Lemma get_person_x_shape_witness :
  get_person_x (detector default_config) 720 1280 (Some landmarks_torso)
    = Return (Some (640, Some 0x1.0124924924925p+9%float))
  /\ (Some 0x1.0124924924925p+9%float = None <->
      visible f0_3 (nose landmarks_torso) = false).
Proof.
  split; [reflexivity|].
  destruct (get_person_x_shape (detector default_config) 720 1280 landmarks_torso
              (Some (640, Some 0x1.0124924924925p+9%float)) eq_refl) as [_ H].
  destruct (H 640 (Some 0x1.0124924924925p+9%float) eq_refl) as (_ & Hn & _).
  exact Hn.
Defined.

Lemma SFabs_signed x : x <> S754_nan -> sf_signed false (SFabs x).
Proof. destruct x; simpl; congruence. Qed.

(** A quotient of a non-negative float by a positive finite one is not
    negative (and not NaN). *)
Lemma SFdiv_nonneg x my ey :
  sf_signed false x ->
  sf_signed false (SFdiv prec emax x (S754_finite false my ey)).
Proof.
  destruct x as [s|s| |s mx ex]; simpl; intros H; subst; try reflexivity;
    try contradiction.
  unfold SFdiv_core_binary.
  match goal with |- context [Z.div_eucl ?a ?b] =>
    pose proof (Z.div_pos a b) as Hq; unfold Z.div in Hq;
    assert (Ha : 0 <= a); [|destruct (Z.div_eucl a b) as [q r]]
  end.
  - match goal with |- 0 <= match ?c with _ => _ end => destruct c end;
      try lia. apply Z.shiftl_nonneg. lia.
  - apply binary_round_aux_signed. apply Hq; [exact Ha | lia].
Qed.

Lemma abs_nonneg_or_nan x : nonneg (abs x) = true \/ is_nan (abs x) = true.
Proof.
  rewrite nonneg_spec, is_nan_spec, abs_spec.
  destruct (Prim2SF x) as [s|s| |s m e]; simpl; auto.
Qed.

Lemma abs_div_nonneg_or_nan x :
  nonneg (abs x / f0_35) = true \/ is_nan (abs x / f0_35) = true.
Proof.
  rewrite nonneg_spec, is_nan_spec, div_spec, abs_spec.
  change (Prim2SF f0_35) with (S754_finite false 6305039478318694 (-54)).
  unfold SF64div.
  destruct (Prim2SF x) as [s|s| |s m e] eqn:E.
  - left. reflexivity.
  - left. reflexivity.
  - right. reflexivity.
  - left. apply sf_signed_nonneg, SFdiv_nonneg. reflexivity.
Qed.

(** Property X18.  A pixel height returned by [get_person_x] is never negative:
    it is an absolute value, or an absolute value divided by 0.35, hence
    [>= 0] (possibly infinite) or NaN. *)
Theorem get_person_x_height_not_negative c height width pl px ph :
  get_person_x c height width pl = Return (Some (px, Some ph)) ->
  nonneg ph = true \/ is_nan ph = true.
Proof.
  unfold get_person_x, pixel_height_of. cbv zeta.
  destruct pl as [l|]; [|discriminate].
  destruct (person_x_of _ width l) as [[x|]|e]; simpl; try discriminate.
  destruct (visible _ (nose l)); simpl; [|discriminate].
  destruct (int_to_float height) as [hf|e]; simpl; [|discriminate].
  destruct (ankles_visible _ l); simpl.
  - intros H. injection H as _ <-. apply abs_nonneg_or_nan.
  - destruct (hips_visible _ l); simpl; [|discriminate].
    intros H. injection H as _ <-. apply abs_div_nonneg_or_nan.
Qed.

Lemma get_person_x_height_not_negative_witness :
  get_person_x (detector default_config) 720 1280 (Some landmarks_standing)
    = Return (Some (640, Some 360%float))
  /\ (nonneg 360 = true \/ is_nan 360 = true).
Proof.
  split; [reflexivity|].
  apply (get_person_x_height_not_negative (detector default_config) 720 1280
           (Some landmarks_standing) 640 360 eq_refl).
Defined.

(* ================================================================== *)
(** * [Config.from_ball_color] *)
(* ================================================================== *)

Lemma lower_char_idempotent c : lower_char (lower_char c) = lower_char c.
Proof. destruct c as [[] [] [] [] [] [] [] []]; reflexivity. Qed.

Lemma lower_idempotent s : lower (lower s) = lower s.
Proof.
  induction s as [|c s IH]; simpl; [reflexivity|].
  rewrite lower_char_idempotent, IH. reflexivity.
Qed.

Lemma str_dict_get_spec {V : Type} (d : list (string * V)) key :
  match str_dict_get d key with
  | Some v => In (key, v) d
  | None => ~ In key (map fst d)
  end.
Proof.
  induction d as [|[k v] d IH]; simpl; [tauto|].
  destruct (String.eqb_spec k key) as [->|Hne]; [auto|].
  destruct (str_dict_get d key); [auto|]. intros [?|?]; auto.
Qed.

(** The names the command line accepts are the keys of the presets. *)
Lemma choices_are_presets : ball_color_choices = map fst BALL_COLOR_PRESETS.
Proof. reflexivity. Qed.

(** The look-up in the presets succeeds exactly on the six colour names. *)
Lemma presets_get key :
  match str_dict_get BALL_COLOR_PRESETS key with
  | Some v => In (key, v) BALL_COLOR_PRESETS /\ In key ball_color_choices
  | None => ~ In key ball_color_choices
  end.
Proof.
  rewrite choices_are_presets.
  pose proof (str_dict_get_spec BALL_COLOR_PRESETS key) as H.
  destruct (str_dict_get BALL_COLOR_PRESETS key) as [v|]; [|exact H].
  split; [exact H|]. apply (in_map fst) in H. exact H.
Qed.

(** Property X19.  [from_ball_color] looks the colour up without regard to case.
    It returns exactly when the lower-cased name is one of the six names the
    command line accepts, and raises [ValueError] otherwise; the returned
    configuration carries that preset's HSV bounds, every other field at its
    default and no manual override. *)
Theorem from_ball_color_accepts color :
  from_ball_color (lower color) = from_ball_color color
  /\ (In (lower color) ball_color_choices ->
      exists lo up,
        In (lower color, (lo, up)) BALL_COLOR_PRESETS
        /\ from_ball_color color = Return (config_with_hsv lo up))
  /\ (~ In (lower color) ball_color_choices ->
      from_ball_color color = Raise ValueError).
Proof.
  unfold from_ball_color. rewrite lower_idempotent.
  split; [reflexivity|].
  pose proof (presets_get (lower color)) as H.
  destruct (str_dict_get BALL_COLOR_PRESETS (lower color)) as [[lo up]|].
  - destruct H as [Hin Hc]. split; [eauto|]. intros Hn. contradiction.
  - split; [intros Hc; contradiction|reflexivity].
Qed.

Lemma from_ball_color_accepts_witness :
  from_ball_color "yellow" = from_ball_color "YeLLoW"
  /\ from_ball_color "YeLLoW" = Return (config_with_hsv (20, 100, 100) (35, 255, 255))
  /\ from_ball_color "purple" = Raise ValueError.
Proof.
  destruct (from_ball_color_accepts "YeLLoW") as (H1 & _ & _).
  destruct (from_ball_color_accepts "purple") as (_ & _ & H3).
  split; [exact H1|]. split; [reflexivity|].
  apply H3. simpl. intuition discriminate.
Defined.

(* ================================================================== *)
(** * [main] *)
(* ================================================================== *)



(** The configuration [main] builds: a zero [--origin-x] and a zero
    [--scale] are dropped. *)
Lemma main_config_overrides args config :
  main_config args = Return config ->
  overrides config
  = {| manual_scale_cm_per_px :=
         match arg_scale args with
         | Some s => if truthy s then Some s else None
         | None => None
         end;
       manual_origin_x :=
         match arg_origin_x args with
         | Some m => if m =? 0 then None else Some m
         | None => None
         end |}.
Proof.
  unfold main_config, from_ball_color.
  destruct (str_dict_get _ _) as [[lo up]|]; simpl; [|discriminate].
  intros H. injection H as <-. reflexivity.
Qed.

Lemma main_inv args file_exists file_opens fs elapsed r code :
  main args file_exists file_opens fs elapsed = Return (r, code) ->
  exists config,
    main_config args = Return config
    /\ process_video (overrides config)
         {| video_path := arg_video args; path_exists := file_exists;
            is_opened := file_opens; frames := fs |}
         (arg_height_cm args) (negb (arg_no_preview args)) elapsed = Return r
    /\ code = if String.eqb (status r) "VALID" then 0 else 1.
Proof.
  unfold main.
  destruct (main_config args) as [config|e]; simpl; [|discriminate].
  destruct (process_video _ _ _ _ _) as [r'|e] eqn:Ep; simpl; [|discriminate].
  intros H. injection H as <- <-.
  exists config. split; [reflexivity|]. split; [exact Ep|reflexivity].
Qed.



(** Property X21.  How the command-line overrides reach a [VALID] result.  The
    calibration scale is [--scale] when it is given and not zero, and
    otherwise the first scale derived from a person signal, else 0.5.  The
    distance is measured from [--origin-x] when it is given and not zero, and
    otherwise from the origin the heuristics find, to the x of a collected
    detection; [--origin-x 0] and [--scale 0] behave as if not given. *)
Theorem main_overrides_reach_result args file_exists file_opens fs elapsed r code :
  main args file_exists file_opens fs elapsed = Return (r, code) ->
  status r = "VALID"%string ->
  let derived := scale_or_default (first_derived_scale (arg_height_cm args) fs) in
  let sc := match arg_scale args with
            | Some s => if truthy s then s else derived
            | None => derived
            end in
  let heuristic := fst (find_origin (first_person_x fs) (observations fs)) in
  let origin := match arg_origin_x args with
                | Some m => if m =? 0 then heuristic else m
                | None => heuristic
                end in
  calibration_scale r = Some sc
  /\ exists landing d,
       In landing (observations fs)
       /\ int_to_float (Z.abs (ball_x landing - origin)) = Return d
       /\ distance_cm r = Some (py_round (d * sc) 2).
Proof.
  intros Hm Hs derived sc heuristic origin.
  destruct (main_inv _ _ _ _ _ _ _ Hm) as (config & Hcfg & Hr & _).
  pose proof (main_config_overrides _ _ Hcfg) as Hov.
  destruct (valid_run_inv _ _ _ _ _ _ Hr Hs) as (i & d & Hi & Hd & ->).
  destruct (process_video_valid _ _ _ _ _ _ Hr Hs) as (_ & Hn & _).
  simpl frames in *.
  destruct (find_origin_sub (first_person_x fs) _ Hn) as (Hincl & Hlen & _).
  unfold resolved_origin in Hi, Hd. simpl fst in Hd. simpl snd in Hi, Hd.
  set (traj := snd (find_origin _ _)) in *.
  assert (Hne : traj <> []).
  { intros E. rewrite E in Hlen. unfold len in Hlen. simpl in Hlen. lia. }
  destruct (landing_index_first_max traj Hne) as (i' & Hi' & _ & Hin & _).
  rewrite Hi in Hi'. injection Hi' as <-.
  assert (Hsc : run_scale (overrides config) (arg_height_cm args) fs = sc).
  { unfold run_scale. rewrite Hov. simpl. subst sc derived.
    destruct (arg_scale args) as [s|]; [destruct (truthy s)|]; reflexivity. }
  assert (Ho : override_origin (overrides config)
                 (fst (find_origin (first_person_x fs) (observations fs))) = origin).
  { unfold override_origin. rewrite Hov. simpl. subst origin heuristic.
    destruct (arg_origin_x args) as [m|]; [|reflexivity].
    destruct (m =? 0) eqn:E; [reflexivity|]. rewrite E. reflexivity. }
  rewrite Hsc. rewrite Ho in Hd. simpl.
  split; [reflexivity|].
  exists (ball_at traj i), d.
  split; [apply Hincl, Hin|]. split; [exact Hd|reflexivity].
Qed.

Lemma main_overrides_reach_result_witness :
  main (args_of "orange" (Some 50) (Some 0%float)) true true frames_scenario 12
    = Return (set_processing_time (valid_result 125 0.5 3) 12, 0)
  /\ calibration_scale (set_processing_time (valid_result 125 0.5 3) 12)
     = Some 0.5%float
  /\ exists landing d,
       In landing (observations frames_scenario)
       /\ int_to_float (Z.abs (ball_x landing - 50)) = Return d
       /\ Some 125%float = Some (py_round (d * 0.5) 2).
Proof.
  split; [reflexivity|].
  apply (main_overrides_reach_result
           (args_of "orange" (Some 50) (Some 0%float)) true true frames_scenario 12
           (set_processing_time (valid_result 125 0.5 3) 12) 0 eq_refl eq_refl).
Defined.
